(** * headcoin: the ledger core ([blockchain_core.py]) and the gossip
    listener ([node.py]), embedded shallowly.

    Python values are modelled as follows.
    - [str] is [string], a sequence of characters below 256; [int] is [Z]
      (unbounded); [float] is the kernel's binary64 [float], so that [nan]
      and [infinity] behave as in Python.
    - A [TransactionType] dict is a record of optional entries: [None] is a
      key that the dict does not have.  [add_transaction] reads with
      [tx.get(...)] and guards [tx["amount"]] with [try], so absent keys are
      part of its input domain.
    - A [BlockType] dict is a record (every key present).
    - The mempool, a [dict[str, TransactionType]], is an association list in
      insertion order: [list(self.mempool.values())] fixes the order of the
      transactions of a mined block.
    - [hashlib.sha256(json.dumps(obj, sort_keys=True).encode()).hexdigest()]
      is a parameter [_hash_dict] of the ledger section; [sha256_hash_dict],
      from the modules [Sha256] and [Json], is its concrete instance, used
      on the concrete ledgers at the end.
    - A method of [Blockchain] is a function from the object's state to an
      outcome and the state it leaves: a Python exception keeps the
      mutations done before it was raised.
    - [datetime.datetime.now().isoformat()] is an input ([now]) of
      [mine_block], and its [while] loop runs on fuel.
    - Of [node.py], the listener's turn on a decoded JSON datagram is
      modelled; the peer-list datagrams and the prompt are not. *)

From Stdlib Require Import ZArith Ascii PrimFloat.
From Stdlib Require FloatOps SpecFloat.
From stdpp Require Import base option list strings pretty gmap.

Local Open Scope string_scope.
Local Open Scope Z_scope.
Local Open Scope list_scope.

(** ** data_types.py *)

Record TransactionType : Type := mkTransaction {
  tx_id : option string;
  sender : option string;
  receiver : option string;
  amount : option float;
  type : option string
}.

Record BlockType : Type := mkBlock {
  index : Z;
  timestamp : string;
  nonce : Z;
  previous_hash : string;
  transactions : list TransactionType
}.

Definition set_nonce (b : BlockType) (n : Z) : BlockType :=
  mkBlock (index b) (timestamp b) n (previous_hash b) (transactions b).

(** ** Python built-ins used by the source *)

(** [s.startswith(p)] *)
Definition startswith (s p : string) : bool := String.prefix p s.

(** [a == b] on [str] *)
Definition str_eqb (a b : string) : bool := bool_decide (a = b).

(** [not tx.get(k)]: the entry is absent or the empty string. *)
Definition falsy (v : option string) : bool :=
  match v with
  | None => true
  | Some s => str_eqb s ""
  end.

(** [a == b] on optional dict entries: two absent keys agree. *)
Definition opt_eqb {A : Type} (eqb : A → A → bool) (a b : option A) : bool :=
  match a, b with
  | Some x, Some y => eqb x y
  | None, None => true
  | _, _ => false
  end.

(** [a == b] on two transaction dicts met in two different objects: the
    floats compare as IEEE numbers ([nan != nan]). *)
Definition tx_eqb (a b : TransactionType) : bool :=
  opt_eqb str_eqb (tx_id a) (tx_id b)
  && opt_eqb str_eqb (sender a) (sender b)
  && opt_eqb str_eqb (receiver a) (receiver b)
  && opt_eqb PrimFloat.eqb (amount a) (amount b)
  && opt_eqb str_eqb (type a) (type b).

Fixpoint list_eqb {A : Type} (eqb : A → A → bool) (l k : list A) : bool :=
  match l, k with
  | [], [] => true
  | x :: l', y :: k' => eqb x y && list_eqb eqb l' k'
  | _, _ => false
  end.

(** [a == b] on two block dicts. *)
Definition block_eqb (a b : BlockType) : bool :=
  (index a =? index b)%Z
  && str_eqb (timestamp a) (timestamp b)
  && (nonce a =? nonce b)%Z
  && str_eqb (previous_hash a) (previous_hash b)
  && list_eqb tx_eqb (transactions a) (transactions b).

(** *** Insertion-ordered dictionaries with [str] keys *)

Module Dict.
Section Ops.
Context {V : Type}.

(** [k in d] *)
Fixpoint contains (k : string) (d : list (string * V)) : bool :=
  match d with
  | [] => false
  | (k', _) :: d' => str_eqb k k' || contains k d'
  end.

(** [d[k]], [None] for a [KeyError] *)
Fixpoint get (k : string) (d : list (string * V)) : option V :=
  match d with
  | [] => None
  | (k', v) :: d' => if str_eqb k k' then Some v else get k d'
  end.

(** [d[k] = v]: a present key keeps its place, a new key goes last. *)
Fixpoint set (k : string) (v : V) (d : list (string * V)) : list (string * V) :=
  match d with
  | [] => [(k, v)]
  | (k', v') :: d' => if str_eqb k k' then (k', v) :: d' else (k', v') :: set k v d'
  end.

(** [d.pop(k, None)] *)
Definition pop (k : string) (d : list (string * V)) : list (string * V) :=
  filter (λ e, e.1 ≠ k) d.

(** [list(d.values())] *)
Definition values (d : list (string * V)) : list V := d.*2.

(** [list(d.keys())] *)
Definition keys (d : list (string * V)) : list string := d.*1.
End Ops.
End Dict.

(** ** hashlib.sha256 (FIPS 180-4), on bytes given as numbers below 256 *)

Module Sha256.

Definition mask32 : Z := 4294967295.

Definition w32 (x : Z) : Z := Z.land x mask32.

Definition rotr (n x : Z) : Z :=
  Z.lor (Z.shiftr x n) (w32 (Z.shiftl x (32 - n))).

Definition ch (x y z : Z) : Z :=
  Z.lxor (Z.land x y) (Z.land (Z.lxor x mask32) z).

Definition maj (x y z : Z) : Z :=
  Z.lxor (Z.lxor (Z.land x y) (Z.land x z)) (Z.land y z).

Definition big_sigma0 (x : Z) : Z := Z.lxor (Z.lxor (rotr 2 x) (rotr 13 x)) (rotr 22 x).
Definition big_sigma1 (x : Z) : Z := Z.lxor (Z.lxor (rotr 6 x) (rotr 11 x)) (rotr 25 x).
Definition small_sigma0 (x : Z) : Z := Z.lxor (Z.lxor (rotr 7 x) (rotr 18 x)) (Z.shiftr x 3).
Definition small_sigma1 (x : Z) : Z := Z.lxor (Z.lxor (rotr 17 x) (rotr 19 x)) (Z.shiftr x 10).

(** The round constants, in decimal. *)
Definition round_constants : list Z :=
  [ 1116352408; 1899447441; 3049323471; 3921009573;
    961987163; 1508970993; 2453635748; 2870763221;
    3624381080; 310598401; 607225278; 1426881987;
    1925078388; 2162078206; 2614888103; 3248222580;
    3835390401; 4022224774; 264347078; 604807628;
    770255983; 1249150122; 1555081692; 1996064986;
    2554220882; 2821834349; 2952996808; 3210313671;
    3336571891; 3584528711; 113926993; 338241895;
    666307205; 773529912; 1294757372; 1396182291;
    1695183700; 1986661051; 2177026350; 2456956037;
    2730485921; 2820302411; 3259730800; 3345764771;
    3516065817; 3600352804; 4094571909; 275423344;
    430227734; 506948616; 659060556; 883997877;
    958139571; 1322822218; 1537002063; 1747873779;
    1955562222; 2024104815; 2227730452; 2361852424;
    2428436474; 2756734187; 3204031479; 3329325298 ].

Record regs : Type := mkRegs {
  ra : Z; rb : Z; rc : Z; rd : Z; re : Z; rf : Z; rg : Z; rh : Z
}.

Definition initial_hash : regs :=
  mkRegs 1779033703 3144134277 1013904242 2773480762
         1359893119 2600822924 528734635 1541459225.

(** The message schedule, newest word first: [extend n rw] adds [n] words. *)
Fixpoint extend (n : nat) (rw : list Z) : list Z :=
  match n with
  | O => rw
  | S n' =>
      extend n' (w32 (small_sigma1 (nth 1 rw 0) + nth 6 rw 0
                      + small_sigma0 (nth 14 rw 0) + nth 15 rw 0) :: rw)
  end.

Definition schedule (block : list Z) : list Z := rev (extend 48 (rev block)).

Definition round (s : regs) (kw : Z * Z) : regs :=
  let t1 := rh s + big_sigma1 (re s) + ch (re s) (rf s) (rg s) + kw.1 + kw.2 in
  let t2 := big_sigma0 (ra s) + maj (ra s) (rb s) (rc s) in
  mkRegs (w32 (t1 + t2)) (ra s) (rb s) (rc s) (w32 (rd s + t1)) (re s) (rf s) (rg s).

Definition compress (hs : regs) (block : list Z) : regs :=
  let s := fold_left round (zip round_constants (schedule block)) hs in
  mkRegs (w32 (ra hs + ra s)) (w32 (rb hs + rb s)) (w32 (rc hs + rc s))
         (w32 (rd hs + rd s)) (w32 (re hs + re s)) (w32 (rf hs + rf s))
         (w32 (rg hs + rg s)) (w32 (rh hs + rh s)).

(** [n] as [k] bytes, most significant first. *)
Fixpoint be_bytes (k : nat) (n : Z) : list Z :=
  match k with
  | O => []
  | S k' => be_bytes k' (Z.shiftr n 8) ++ [Z.land n 255]
  end.

(** The message, a one bit, zeros up to 56 modulo 64, and the bit length. *)
Definition pad (msg : list Z) : list Z :=
  let len := Z.of_nat (length msg) in
  msg ++ [128] ++ repeat 0 (Z.to_nat ((55 - len) mod 64)) ++ be_bytes 8 (8 * len).

(** Big-endian words of four bytes. *)
Fixpoint words (fuel : nat) (bytes : list Z) : list Z :=
  match fuel, bytes with
  | S fuel', b0 :: b1 :: b2 :: b3 :: rest =>
      (Z.shiftl b0 24 + Z.shiftl b1 16 + Z.shiftl b2 8 + b3) :: words fuel' rest
  | _, _ => []
  end.

Fixpoint blocks (fuel : nat) (ws : list Z) (hs : regs) : regs :=
  match fuel, ws with
  | S fuel', _ :: _ => blocks fuel' (drop 16 ws) (compress hs (take 16 ws))
  | _, _ => hs
  end.

Definition digest (msg : list Z) : regs :=
  let bytes := pad msg in
  blocks (length bytes) (words (length bytes) bytes) initial_hash.

Definition hex_digit (n : Z) : ascii :=
  if n <? 10 then ascii_of_N (Z.to_N (48 + n)) else ascii_of_N (Z.to_N (87 + n)).

(** [n] as [k] lowercase hexadecimal digits. *)
Fixpoint hex (k : nat) (n : Z) : string :=
  match k with
  | O => ""
  | S k' => hex k' (Z.shiftr n 4) +:+ String (hex_digit (Z.land n 15)) ""
  end.

Definition hexdigest (msg : list Z) : string :=
  let s := digest msg in
  hex 8 (ra s) +:+ hex 8 (rb s) +:+ hex 8 (rc s) +:+ hex 8 (rd s)
  +:+ hex 8 (re s) +:+ hex 8 (rf s) +:+ hex 8 (rg s) +:+ hex 8 (rh s).

(** [s.encode()] of a text whose characters are all below 256 and that
    [json.dumps] has made ASCII. *)
Definition encode (s : string) : list Z :=
  (λ c, Z.of_N (N_of_ascii c)) <$> String.list_ascii_of_string s.

End Sha256.

(** ** json.dumps(obj, sort_keys=True) on blocks *)

Module Json.

(** [repr] of a finite float [m * 2^e], [m > 0], in the canonical form of
    binary64: the shortest decimal that reads back as the float and, of
    these, the nearest (David Gay's mode 0), laid out by the ['r'] format. *)

(** [v * 10^k] as a fraction over the denominator [den]: the two sides of
    a comparison of [c * 10^k] with [num / den]. *)
Definition scaled (c k num den : Z) : Z * Z :=
  if 0 <=? k then (c * 10 ^ k * den, num) else (c * den, num * 10 ^ (- k)).

(** [10^t <= num / den] *)
Definition pow10_le (t num den : Z) : bool :=
  let '(l, r) := scaled 1 t num den in l <=? r.

(** The largest [t] with [10^t <= num / den], from a lower estimate. *)
Fixpoint log10_from (fuel : nat) (t num den : Z) : Z :=
  match fuel with
  | O => t
  | S fuel' => if pow10_le (t + 1) num den then log10_from fuel' (t + 1) num den else t
  end.

Definition floor_log10 (num den : Z) : Z :=
  log10_from 8 ((Z.log2 num - Z.log2 den) * 1233 / 4096 - 2) num den.

(** [floor (num / den / 10^k)] *)
Definition digits_floor (k num den : Z) : Z :=
  if 0 <=? k then num / (den * 10 ^ k) else (num * 10 ^ (- k)) / den.

(** Is [c * 10^k] in the interval of the reals that round to the float? *)
Definition rounds_back (incl : bool) (c k lo hi den : Z) : bool :=
  let '(l1, r1) := scaled c k lo den in
  let '(l2, r2) := scaled c k hi den in
  if incl then (r1 <=? l1) && (l2 <=? r2) else (r1 <? l1) && (l2 <? r2).

(** The digits [d] and exponent [k] of the decimal [d * 10^k] chosen with
    [n] digits, if one reads back. *)
Definition with_digits (incl : bool) (n t x lo hi den : Z) : option (Z * Z) :=
  let k := t + 1 - n in
  let d := digits_floor k x den in
  let low_ok := rounds_back incl d k lo hi den in
  let high_ok := rounds_back incl (d + 1) k lo hi den in
  let '(mid, twice) := scaled (2 * d + 1) k (2 * x) den in
  let pick_low := (twice <? mid) || ((twice =? mid) && Z.even d) in
  match low_ok, high_ok with
  | true, true => Some (if pick_low then d else d + 1, k)
  | true, false => Some (d, k)
  | false, true => Some (d + 1, k)
  | false, false => None
  end.

Fixpoint shortest (fuel : nat) (incl : bool) (n t x lo hi den : Z) : Z * Z :=
  match fuel with
  | O => (digits_floor (t + 1 - n) x den, t + 1 - n)
  | S fuel' =>
      match with_digits incl n t x lo hi den with
      | Some dk => dk
      | None => shortest fuel' incl (n + 1) t x lo hi den
      end
  end.

Fixpoint strip_zeros (fuel : nat) (d k : Z) : Z * Z :=
  match fuel with
  | O => (d, k)
  | S fuel' => if (0 <? d) && (d mod 10 =? 0) then strip_zeros fuel' (d / 10) (k + 1) else (d, k)
  end.

(** The digit string and the position of the decimal point after its
    first [decpt] digits. *)
Definition dtoa (m : positive) (e : Z) : string * Z :=
  let M := Zpos m in
  let sh := e - 2 in
  let up := if 0 <=? sh then 2 ^ sh else 1 in
  let den := if 0 <=? sh then 1 else 2 ^ (- sh) in
  let x := 4 * M * up in
  let hi := (4 * M + 2) * up in
  let lo := (if (M =? 2 ^ 52) && (-1074 <? e) then 4 * M - 1 else 4 * M - 2) * up in
  let t := floor_log10 x den in
  let '(d0, k0) := shortest 17 (Z.even M) 1 t x lo hi den in
  let '(d, k) := strip_zeros 20 d0 k0 in
  let s : string := pretty d in
  (s, k + Z.of_nat (String.length s)).

Definition zeros (n : Z) : string := String.concat "" (repeat "0" (Z.to_nat n)).

Definition two_digits (n : Z) : string :=
  if n <? 10 then "0" +:+ pretty n else pretty n.

Definition format_r (digits : string) (decpt : Z) : string :=
  let n := Z.of_nat (String.length digits) in
  if (decpt <=? -4) || (16 <? decpt) then
    let mantissa :=
      if n =? 1 then digits
      else String.substring 0 1 digits +:+ "." +:+ String.substring 1 (Z.to_nat (n - 1)) digits in
    let ex := decpt - 1 in
    mantissa +:+ "e" +:+ (if ex <? 0 then "-" else "+") +:+ two_digits (Z.abs ex)
  else if decpt <=? 0 then "0." +:+ zeros (- decpt) +:+ digits
  else if decpt <? n then
    String.substring 0 (Z.to_nat decpt) digits +:+ "." +:+
    String.substring (Z.to_nat decpt) (Z.to_nat (n - decpt)) digits
  else digits +:+ zeros (decpt - n) +:+ ".0".

(** [json.encoder]'s text of a float: [float.__repr__], and the three
    names that [allow_nan] lets through. *)
Definition float_str (f : float) : string :=
  match FloatOps.Prim2SF f with
  | SpecFloat.S754_nan => "NaN"
  | SpecFloat.S754_infinity s => if s then "-Infinity" else "Infinity"
  | SpecFloat.S754_zero s => if s then "-0.0" else "0.0"
  | SpecFloat.S754_finite s m e =>
      let '(digits, decpt) := dtoa m e in
      (if s then "-" else "") +:+ format_r digits decpt
  end.

Definition quote : string := String (ascii_of_N 34) "".
Definition backslash : string := String (ascii_of_N 92) "".

(** [ESCAPE_ASCII]: the quote, the backslash and every character outside
    [' '..'~'] are escaped. *)
Definition escape_char (c : ascii) : string :=
  let n := Z.of_N (N_of_ascii c) in
  if n =? 34 then backslash +:+ quote
  else if n =? 92 then backslash +:+ backslash
  else if n =? 10 then backslash +:+ "n"
  else if n =? 13 then backslash +:+ "r"
  else if n =? 9 then backslash +:+ "t"
  else if n =? 8 then backslash +:+ "b"
  else if n =? 12 then backslash +:+ "f"
  else if (n <? 32) || (126 <? n) then backslash +:+ "u" +:+ Sha256.hex 4 n
  else String c "".

Fixpoint escape (s : string) : string :=
  match s with
  | EmptyString => ""
  | String c s' => escape_char c +:+ escape s'
  end.

Definition str (s : string) : string := quote +:+ escape s +:+ quote.

(** The entry ["key": text] of an object, if the key is present. *)
Definition entry (key : string) (text : option string) : list string :=
  match text with
  | Some t => [str key +:+ ": " +:+ t]
  | None => []
  end.

Definition object (entries : list string) : string :=
  "{" +:+ String.concat ", " entries +:+ "}".

Definition array (items : list string) : string :=
  "[" +:+ String.concat ", " items +:+ "]".

(** The keys of a transaction, sorted. *)
Definition dumps_tx (t : TransactionType) : string :=
  object (entry "amount" (float_str <$> amount t)
          ++ entry "receiver" (str <$> receiver t)
          ++ entry "sender" (str <$> sender t)
          ++ entry "tx_id" (str <$> tx_id t)
          ++ entry "type" (str <$> type t)).

(** The keys of a block, sorted. *)
Definition dumps_block (b : BlockType) : string :=
  object (entry "index" (Some (pretty (index b)))
          ++ entry "nonce" (Some (pretty (nonce b)))
          ++ entry "previous_hash" (Some (str (previous_hash b)))
          ++ entry "timestamp" (Some (str (timestamp b)))
          ++ entry "transactions" (Some (array (dumps_tx <$> transactions b)))).

End Json.

(** [_hash_dict] on a block, computed. *)
Definition sha256_hash_dict (block : BlockType) : string :=
  Sha256.hexdigest (Sha256.encode (Json.dumps_block block)).

(** ** blockchain_core.py *)

Definition BLOCK_REWARD : float := 50%float.

Definition GENESIS : BlockType :=
  mkBlock 1 "2025-01-01T00:00:00Z" 1 "0" [].

(** The attributes of a [Blockchain] object. *)
Record Blockchain : Type := mkBlockchain {
  chain : list BlockType;
  mempool : list (string * TransactionType)
}.

(** [Blockchain()] *)
Definition init : Blockchain := mkBlockchain [GENESIS] [].

Inductive exn : Type :=
| KeyError (key : string)
| IndexError.

Inductive result (A : Type) : Type :=
| Ok (a : A)
| Raise (e : exn).
Arguments Ok {A} a.
Arguments Raise {A} e.

(** A method body: it runs on the object [self] and leaves it, mutated,
    with a value or an exception. *)
Definition M (A : Type) : Type := Blockchain → result A * Blockchain.

Definition ret {A : Type} (a : A) : M A := λ self, (Ok a, self).

Definition raise {A : Type} (e : exn) : M A := λ self, (Raise e, self).

Definition bind {A B : Type} (m : M A) (k : A → M B) : M B :=
  λ self,
    match m self with
    | (Ok a, self') => k a self'
    | (Raise e, self') => (Raise e, self')
    end.

Notation "x <- m ;; k" := (bind m (λ x, k))
  (at level 100, m at next level, right associativity).
Notation "m ;;; k" := (bind m (λ _, k))
  (at level 100, right associativity).

Definition get_chain : M (list BlockType) := λ self, (Ok (chain self), self).
Definition get_mempool : M (list (string * TransactionType)) :=
  λ self, (Ok (mempool self), self).
Definition put_chain (c : list BlockType) : M unit :=
  λ self, (Ok (), mkBlockchain c (mempool self)).
Definition put_mempool (m : list (string * TransactionType)) : M unit :=
  λ self, (Ok (), mkBlockchain (chain self) m).

(** [d[key]] on an entry that may be absent *)
Definition getitem {A : Type} (key : string) (v : option A) : M A :=
  match v with
  | Some a => ret a
  | None => raise (KeyError key)
  end.

(** [for x in l: body(x)] *)
Fixpoint for_each {A : Type} (l : list A) (body : A → M unit) : M unit :=
  match l with
  | [] => ret ()
  | x :: l' => body x ;;; for_each l' body
  end.

Section Ledger.
(** [_hash_dict]: SHA-256 of the sorted-key JSON text, as a hex string. *)
Variable _hash_dict : BlockType → string.

Definition hash_block (block : BlockType) : string := _hash_dict block.

(** The proof-of-work predicate, [hash(block).startswith("0000")]. *)
Definition pow_ok (block : BlockType) : bool :=
  startswith (hash_block block) "0000".

Definition _build_block (now : string) (nonce : Z) (previous_hash : string)
    (txs : list TransactionType) : M BlockType :=
  c <- get_chain ;;
  ret (mkBlock (Z.of_nat (length c) + 1) now nonce previous_hash txs).

(** [self.chain[-1]] *)
Definition get_latest_block : M BlockType :=
  c <- get_chain ;;
  match last c with
  | Some b => ret b
  | None => raise IndexError
  end.

Definition _remove_confirmed_from_mempool (confirmed_txs : list TransactionType) : M unit :=
  for_each confirmed_txs (λ t,
    ty <- getitem "type" (type t) ;;
    if str_eqb ty "regular" then
      tid <- getitem "tx_id" (tx_id t) ;;
      m <- get_mempool ;;
      put_mempool (Dict.pop tid m)
    else ret ()).

(** The [while] loop of [mine_block]: [None] when [fuel] tests did not
    reach a nonce that passes. *)
Fixpoint nonce_search (fuel : nat) (block : BlockType) : option BlockType :=
  match fuel with
  | O => None
  | S fuel' =>
      if pow_ok block then Some block
      else nonce_search fuel' (set_nonce block (nonce block + 1))
  end.

Definition coinbase_tx (n : nat) (miner_address : string) : TransactionType :=
  mkTransaction (Some ("coinbase-" +:+ pretty (Z.of_nat n + 1)))
                (Some "COINBASE")
                (Some miner_address)
                (Some BLOCK_REWARD)
                (Some "coinbase").

(** [now] is the reading of [datetime.datetime.now().isoformat()]. *)
Definition mine_block (fuel : nat) (now : string) (miner_address : string)
    : Blockchain → option (result BlockType * Blockchain) :=
  λ self,
    match get_latest_block self with
    | (Raise e, self1) => Some (Raise e, self1)
    | (Ok tip, self1) =>
        let prev_hash := hash_block tip in
        let txs := coinbase_tx (length (chain self1)) miner_address
                   :: Dict.values (mempool self1) in
        match _build_block now 1 prev_hash txs self1 with
        | (Raise e, self2) => Some (Raise e, self2)
        | (Ok block0, self2) =>
            match nonce_search fuel block0 with
            | None => None
            | Some block =>
                Some ((c <- get_chain ;;
                       put_chain (c ++ [block]) ;;;
                       _remove_confirmed_from_mempool (transactions block) ;;;
                       ret block) self2)
            end
        end
    end.

(** The [for i in range(1, len(chain))] loop of [is_chain_valid], on the
    pair [chain[i-1], chain[i]]. *)
Fixpoint links_ok (prev : BlockType) (rest : list BlockType) : bool :=
  match rest with
  | [] => true
  | curr :: rest' =>
      if negb (startswith (_hash_dict curr) "0000")
         || negb (str_eqb (previous_hash curr) (_hash_dict prev))
      then false
      else links_ok curr rest'
  end.

(** [chain or self.chain]: [None] and the empty list are both falsy. *)
Definition chain_or_own (chain0 : option (list BlockType)) (self : Blockchain)
    : list BlockType :=
  match chain0 with
  | Some (b :: c) => b :: c
  | _ => chain self
  end.

Definition is_chain_valid (chain0 : option (list BlockType)) (self : Blockchain) : bool :=
  match chain_or_own chain0 self with
  | [] => false
  | first :: rest =>
      if negb (block_eqb first GENESIS) then false
      else links_ok first rest
  end.

Definition validate_and_add_block (block : BlockType) : M bool :=
  tip <- get_latest_block ;;
  if negb (startswith (hash_block block) "0000")
     || negb (str_eqb (previous_hash block) (hash_block tip))
  then ret false
  else
    c <- get_chain ;;
    put_chain (c ++ [block]) ;;;
    _remove_confirmed_from_mempool (transactions block) ;;;
    ret true.

(** The set comprehension of [replace_chain]; a transaction without its
    ["type"] or ["tx_id"] entry raises. *)
Fixpoint confirmed_ids_txs (txs : list TransactionType) (acc : gset string)
    : result (gset string) :=
  match txs with
  | [] => Ok acc
  | tx :: txs' =>
      match type tx with
      | None => Raise (KeyError "type")
      | Some ty =>
          if str_eqb ty "regular" then
            match tx_id tx with
            | None => Raise (KeyError "tx_id")
            | Some tid => confirmed_ids_txs txs' ({[tid]} ∪ acc)
            end
          else confirmed_ids_txs txs' acc
      end
  end.

Fixpoint confirmed_ids (blocks : list BlockType) (acc : gset string)
    : result (gset string) :=
  match blocks with
  | [] => Ok acc
  | blk :: blocks' =>
      match confirmed_ids_txs (transactions blk) acc with
      | Ok acc' => confirmed_ids blocks' acc'
      | Raise e => Raise e
      end
  end.

Definition replace_chain (new_chain : list BlockType) : M bool :=
  λ self,
    if negb (is_chain_valid (Some new_chain) self)
       || (length new_chain <=? length (chain self))%nat
    then (Ok false, self)
    else
      (put_chain new_chain ;;;
       c <- get_chain ;;
       match confirmed_ids c ∅ with
       | Raise e => raise e
       | Ok ids =>
           m <- get_mempool ;;
           put_mempool (filter (λ e, e.1 ∉ ids) m) ;;;
           ret true
       end) self.

Definition add_transaction (tx : TransactionType) : M (bool * TransactionType) :=
  match amount tx with
  | None => ret (false, tx)
  | Some amt =>
      if PrimFloat.leb amt 0%float then ret (false, tx)
      else if falsy (sender tx) || falsy (receiver tx) || falsy (tx_id tx)
      then ret (false, tx)
      else if negb (bool_decide (type tx = Some "regular")
                    || bool_decide (type tx = Some "coinbase"))
      then ret (false, tx)
      else
        tid <- getitem "tx_id" (tx_id tx) ;;
        m <- get_mempool ;;
        if Dict.contains tid m then
          stored <- getitem tid (Dict.get tid m) ;;
          ret (false, stored)
        else
          ty <- getitem "type" (type tx) ;;
          if str_eqb ty "coinbase" then ret (false, tx)
          else
            put_mempool (Dict.set tid tx m) ;;;
            ret (true, tx)
  end.

(** ** node.py *)

Definition Peer : Type := (string * Z)%type.

(** The JSON payloads of the listener, decoded.  An absent ["ttl"] entry is
    [None]. *)
Inductive Message : Type :=
| new_transaction (tx : TransactionType) (ttl : option Z)
| new_block (block : BlockType)
| REQ_CHAIN
| FULL_CHAIN (remote : list BlockType).

Record Node : Type := mkNode {
  blockchain : Blockchain;
  port : Z;
  address : string;
  peers : list Peer;
  seen_tx_ids : gset string
}.

Definition with_blockchain (self : Node) (bc : Blockchain) : Node :=
  mkNode bc (port self) (address self) (peers self) (seen_tx_ids self).

Definition with_seen (self : Node) (seen : gset string) : Node :=
  mkNode (blockchain self) (port self) (address self) (peers self) seen.

(** [_broadcast]: the datagrams it sends, in order.  A peer tuple is never
    empty, so [except_peer and peer == except_peer] is [peer == except_peer]
    unless [except_peer] is [None]. *)
Definition _broadcast (self : Node) (msg : Message) (except_peer : option Peer)
    : list (Message * Peer) :=
  (λ peer, (msg, peer)) <$> filter (λ peer, except_peer ≠ Some peer) (peers self).

Definition _request_full_chain_from (peer : Peer) : list (Message * Peer) :=
  [(REQ_CHAIN, peer)].

(** One turn of the [while True] loop of [listen] on a decoded JSON
    datagram [payload] from [addr]: the node it leaves and the datagrams it
    sends.  An exception raised in the [try] block ends the turn. *)
Definition listen_step (self : Node) (addr : Peer) (payload : Message)
    : Node * list (Message * Peer) :=
  match payload with
  | new_transaction tx ttl0 =>
      match tx_id tx with
      | None => (self, [])
      | Some tid =>
          let ttl := default 4 ttl0 in
          if str_eqb tid "" || bool_decide (tid ∈ seen_tx_ids self) then (self, [])
          else
            let self1 := with_seen self ({[tid]} ∪ seen_tx_ids self) in
            match add_transaction tx (blockchain self1) with
            | (Raise _, bc) => (with_blockchain self1 bc, [])
            | (Ok _, bc) =>
                let self2 := with_blockchain self1 bc in
                if (0 <? ttl)%Z
                then (self2, _broadcast self2 (new_transaction tx (Some (ttl - 1))) (Some addr))
                else (self2, [])
            end
      end
  | new_block block =>
      match validate_and_add_block block (blockchain self) with
      | (Ok true, bc) => (with_blockchain self bc, [])
      | (Ok false, bc) => (with_blockchain self bc, _request_full_chain_from addr)
      | (Raise _, bc) => (with_blockchain self bc, [])
      end
  | REQ_CHAIN => (self, [(FULL_CHAIN (chain (blockchain self)), addr)])
  | FULL_CHAIN remote =>
      match replace_chain remote (blockchain self) with
      | (_, bc) => (with_blockchain self bc, [])
      end
  end.

(** Turns of the listener on a sequence of datagrams. *)
Fixpoint listen_steps (self : Node) (inbox : list (Peer * Message)) : Node :=
  match inbox with
  | [] => self
  | (addr, payload) :: inbox' => listen_steps (listen_step self addr payload).1 inbox'
  end.

Definition with_peers (self : Node) (ps : list Peer) : Node :=
  mkNode (blockchain self) (port self) (address self) ps (seen_tx_ids self).

Definition _startup_sync (self : Node) : list (Message * Peer) :=
  match peers self with
  | [] => []
  | first :: _ => _request_full_chain_from first
  end.

(** The [PEERS] branch of [listen], on the addresses that the datagram
    lists, each already split at its colon and its port read as an [int]. *)
Definition listen_peers (self : Node) (peer_addresses : list Peer)
    : Node * list (Message * Peer) :=
  let new_peers :=
    filter (λ peer, peer ≠ ("127.0.0.1", port self) ∧ peer ∉ peers self) peer_addresses in
  match new_peers with
  | [] => (self, [])
  | _ :: _ =>
      let self' := with_peers self (peers self ++ new_peers) in
      (self', _startup_sync self')
  end.

(** The [MINE] command of [repl]: the node it leaves, what [mine_block]
    gave, and the datagrams sent.  An exception of [mine_block] leaves the
    prompt before the broadcast. *)
Definition repl_mine (fuel : nat) (now : string) (self : Node)
    : option (result BlockType * Node * list (Message * Peer)) :=
  match mine_block fuel now (address self) (blockchain self) with
  | None => None
  | Some (Ok blk, bc) =>
      let self' := with_blockchain self bc in
      Some (Ok blk, self', _broadcast self' (new_block blk) None)
  | Some (Raise e, bc) => Some (Raise e, with_blockchain self bc, [])
  end.

(** The [TX <receiver> <amount>] command of [repl]; [tx_id] is the reading
    of [uuid.uuid4().hex] and [amount] the value of [float(amount)]. *)
Definition repl_tx (tx_id receiver : string) (amount : float) (self : Node)
    : Node * list (Message * Peer) :=
  let tx := mkTransaction (Some tx_id) (Some (address self)) (Some receiver)
                          (Some amount) (Some "regular") in
  match add_transaction tx (blockchain self) with
  | (Ok (true, _), bc) =>
      let self' := with_seen (with_blockchain self bc) ({[tx_id]} ∪ seen_tx_ids self) in
      (self', _broadcast self' (new_transaction tx (Some 4)) None)
  | (_, bc) => (with_blockchain self bc, [])
  end.

(** ** Notions used by the statements *)

(** The transactions whose ["type"] is ["regular"], and their ids. *)
Definition is_regular (t : TransactionType) : bool :=
  bool_decide (type t = Some "regular").

Definition regular_ids (txs : list TransactionType) : list string :=
  omap (λ t, if is_regular t then tx_id t else None) txs.

(** A transaction has the two entries that the ledger indexes without a
    guard, [t["type"]] and [t["tx_id"]]. *)
Definition tx_typed (t : TransactionType) : Prop :=
  is_Some (tx_id t) ∧ is_Some (type t).

Definition block_typed (b : BlockType) : Prop :=
  Forall tx_typed (transactions b).

(** All transactions of a list of blocks, in order. *)
Definition chain_txs (c : list BlockType) : list TransactionType :=
  c ≫= transactions.

(** The mempool minus the entries whose key is in [ids]. *)
Definition mempool_minus (m : list (string * TransactionType)) (ids : list string)
    : list (string * TransactionType) :=
  filter (λ e, e.1 ∉ ids) m.

(** What the specification asks of a valid chain: it is not empty, it
    starts with the genesis block, and each block names the hash of its
    predecessor and carries the proof of work. *)
Definition chain_valid (c : list BlockType) : Prop :=
  c ≠ [] ∧ head c = Some GENESIS ∧
  ∀ (i : nat) prev curr, c !! i = Some prev → c !! S i = Some curr →
    previous_hash curr = _hash_dict prev ∧ startswith (_hash_dict curr) "0000" = true.

(** The two tests of [validate_and_add_block] on a block and the tip. *)
Definition extends_tip (tip block : BlockType) : Prop :=
  previous_hash block = hash_block tip ∧ startswith (hash_block block) "0000" = true.

(** The test of [replace_chain]: a valid candidate, longer than the chain. *)
Definition adoptable (new_chain : list BlockType) (self : Blockchain) : Prop :=
  chain_valid new_chain ∧ (length (chain self) < length new_chain)%nat.

(** The checks of [add_transaction] that do not read the mempool. *)
Definition amount_passes (tx : TransactionType) : Prop :=
  ∃ amt, amount tx = Some amt ∧ PrimFloat.leb amt 0%float = false.

Definition fields_pass (tx : TransactionType) : Prop :=
  amount_passes tx
  ∧ falsy (sender tx) = false ∧ falsy (receiver tx) = false ∧ falsy (tx_id tx) = false
  ∧ (type tx = Some "regular" ∨ type tx = Some "coinbase").

(** One of these checks fails: the amount is absent or [amt <= 0] holds;
    [sender], [receiver] or [tx_id] is absent or empty; [type] is neither
    ["regular"] nor ["coinbase"]. *)
Definition fields_fail (tx : TransactionType) : Prop :=
  amount tx = None
  ∨ (∃ amt, amount tx = Some amt ∧ PrimFloat.leb amt 0%float = true)
  ∨ falsy (sender tx) = true ∨ falsy (receiver tx) = true ∨ falsy (tx_id tx) = true
  ∨ (type tx ≠ Some "regular" ∧ type tx ≠ Some "coinbase").

(** A finite number above zero, the amount that the specification asks. *)
Definition finite_positive (amt : float) : bool :=
  PrimFloat.is_finite amt && PrimFloat.ltb 0%float amt.

(** Every pending entry is filed under its own id and is a regular
    transaction. *)
Definition mempool_ok (m : list (string * TransactionType)) : Prop :=
  ∀ k tx, (k, tx) ∈ m → tx_id tx = Some k ∧ type tx = Some "regular".

(** The ledgers reached from [Blockchain()] by calls of its methods,
    whatever they return or raise. *)
Inductive reachable : Blockchain → Prop :=
| reach_init : reachable init
| reach_add_transaction tx self :
    reachable self → reachable (add_transaction tx self).2
| reach_mine_block fuel now miner self r self' :
    reachable self → mine_block fuel now miner self = Some (r, self') → reachable self'
| reach_validate_and_add_block block self :
    reachable self → reachable (validate_and_add_block block self).2
| reach_replace_chain new_chain self :
    reachable self → reachable (replace_chain new_chain self).2.

(** The block that [mine_block] builds before the search: [nonce = 1], the
    coinbase first, then the pending transactions. *)
Definition candidate_block (self : Blockchain) (tip : BlockType) (now miner : string)
    : BlockType :=
  mkBlock (Z.of_nat (length (chain self)) + 1) now 1 (hash_block tip)
          (coinbase_tx (length (chain self)) miner :: Dict.values (mempool self)).

(** Some number of increments of the nonce gives the proof of work. *)
Definition solvable (b : BlockType) : Prop :=
  ∃ k : nat, pow_ok (set_nonce b (nonce b + Z.of_nat k)) = true.

(** The ledgers that a node builds alone: from [Blockchain()], by
    submissions and by calls of [mine_block] that returned, with the miner
    addresses of these calls in order. *)
Inductive locally_built : list string → Blockchain → Prop :=
| built_init : locally_built [] init
| built_add_transaction miners tx self :
    locally_built miners self → locally_built miners (add_transaction tx self).2
| built_mine_block miners fuel now miner self block self' :
    locally_built miners self →
    mine_block fuel now miner self = Some (Ok block, self') →
    locally_built (miners ++ [miner]) self'.

(** The facts that hold of a ledger built locally. *)
Record built_facts (miners : list string) (self : Blockchain) : Prop := {
  built_length : length (chain self) = S (length miners);
  built_valid : chain_valid (chain self);
  built_index : ∀ (i : nat) b, chain self !! i = Some b → index b = Z.of_nat i + 1;
  built_coinbase : ∀ (i : nat) miner, miners !! i = Some miner →
    ∃ b, chain self !! S i = Some b
         ∧ head (transactions b) = Some (coinbase_tx (S i) miner)
}.

(** What [_remove_confirmed_from_mempool] and the comprehension of
    [replace_chain] can read of a transaction: its ["type"], and its
    ["tx_id"] when the type is ["regular"]. *)
Definition tx_readable (t : TransactionType) : bool :=
  match type t with
  | None => false
  | Some ty => if str_eqb ty "regular" then bool_decide (is_Some (tx_id t)) else true
  end.

(** The transactions that are read before the first one that cannot be
    read, and the key that this one lacks; [None] when all can be read. *)
Fixpoint readable_prefix (txs : list TransactionType) : list TransactionType :=
  match txs with
  | [] => []
  | t :: txs' => if tx_readable t then t :: readable_prefix txs' else []
  end.

Fixpoint missing_key (txs : list TransactionType) : option string :=
  match txs with
  | [] => None
  | t :: txs' =>
      if tx_readable t then missing_key txs'
      else match type t with
           | None => Some "type"
           | Some _ => Some "tx_id"
           end
  end.

(** The block of a call of [mine_block] with nonce [n], written out: the
    index is one past the chain, the timestamp is the reading of the clock,
    and the coinbase that pays [miner] 50 comes before the pending
    transactions. *)
Definition mined_block (self : Blockchain) (tip : BlockType) (now miner : string) (n : Z)
    : BlockType :=
  mkBlock (Z.of_nat (length (chain self)) + 1) now n (_hash_dict tip)
    (mkTransaction (Some ("coinbase-" +:+ pretty (Z.of_nat (length (chain self)) + 1)))
       (Some "COINBASE") (Some miner) (Some 50%float) (Some "coinbase")
     :: Dict.values (mempool self)).

(** Every pending entry passes the field checks, is regular and is filed
    under its own id, and no id is filed twice. *)
Definition mempool_valid (m : list (string * TransactionType)) : Prop :=
  NoDup (Dict.keys m)
  ∧ ∀ k tx, (k, tx) ∈ m → fields_pass tx ∧ tx_id tx = Some k ∧ type tx = Some "regular".

(** A [new_transaction] datagram passed on from node to node: each entry
    is a node, the sender it hears from and the datagram it hears, and the
    datagram of the next entry is one that this node sends in answer. *)
Fixpoint relay_chain (hops : list (Node * Peer * Message)) : Prop :=
  match hops with
  | [] => True
  | (self, addr, payload) :: hops' =>
      match hops' with
      | [] => True
      | (_, _, payload') :: _ =>
          (∃ peer, (payload', peer) ∈ (listen_step self addr payload).2)
          ∧ relay_chain hops'
      end
  end.

(** The [ttl] that the listener reads in a datagram. *)
Definition ttl_of (payload : Message) : Z :=
  match payload with
  | new_transaction _ ttl0 => default 4 ttl0
  | _ => 0
  end.

(** ** Concrete blocks and ledgers, hashed with SHA-256 *)

Definition genesis_hash : string :=
  "f6d0b75a25a26d358fa2ef7d23f0e7dcdc76744740f3a539ba3eb6a7e4889f0d".

(** The block that ["alice"] mines on a fresh ledger when the clock reads
    ["2025-03-01T12:00:00.184296"]: the first nonce passes. *)
Definition block_two : BlockType :=
  mkBlock 2 "2025-03-01T12:00:00.184296" 1 genesis_hash
    [mkTransaction (Some "coinbase-2") (Some "COINBASE") (Some "alice")
       (Some 50%float) (Some "coinbase")].

(** The block that she mines next, at ["2025-03-01T12:00:07.091565"]. *)
Definition block_three : BlockType :=
  mkBlock 3 "2025-03-01T12:00:07.091565" 1
    "000022a6696edb8aa541f8751db749f6a524d50908a5a34d6aa99f741a242c88"
    [mkTransaction (Some "coinbase-3") (Some "COINBASE") (Some "alice")
       (Some 50%float) (Some "coinbase")].

(** A block made by a peer on top of the genesis block, with index 7. *)
Definition foreign_block : BlockType :=
  mkBlock 7 "2025-03-01T12:30:00.000000" 56995 genesis_hash [].

(** A pending transfer. *)
Definition tx_t1 : TransactionType :=
  mkTransaction (Some "t1") (Some "a") (Some "b") (Some 10%float) (Some "regular").

(** A block of the peer ["bob"] that confirms [tx_t1]. *)
Definition block_bob : BlockType :=
  mkBlock 2 "2025-03-01T14:00:00.167314" 1 genesis_hash
    [mkTransaction (Some "coinbase-2") (Some "COINBASE") (Some "bob")
       (Some 50%float) (Some "coinbase");
     tx_t1].

(** A ledger with [tx_t1] pending. *)
Definition ledger_t1 : Blockchain := mkBlockchain [GENESIS] [("t1", tx_t1)].

(** A transfer whose amount is [nan], as [float("nan")] and the JSON
    literal [NaN] give it. *)
Definition tx_nan : TransactionType :=
  mkTransaction (Some "t9") (Some "a") (Some "b") (Some nan) (Some "regular").

(** Another transfer under the id ["t1"]. *)
Definition tx_t1_again : TransactionType :=
  mkTransaction (Some "t1") (Some "a") (Some "c") (Some 3%float) (Some "regular").

(** A transfer under the id ["t1"] whose amount is zero. *)
Definition tx_t1_zero : TransactionType :=
  mkTransaction (Some "t1") (Some "a") (Some "b") (Some 0%float) (Some "regular").

(** The ledgers after ["alice"] has mined once and twice on a fresh one. *)
Definition ledger_one : Blockchain := mkBlockchain [GENESIS; block_two] [].

Definition ledger_two : Blockchain := mkBlockchain [GENESIS; block_two; block_three] [].

(** A node with two peers that has seen nothing. *)
Definition node_zero : Node :=
  mkNode init 5000 "n0" [("127.0.0.1", 5001); ("127.0.0.1", 5002)] ∅.

(** A transaction whose id is the empty string. *)
Definition tx_no_id : TransactionType :=
  mkTransaction (Some "") (Some "a") (Some "b") (Some 10%float) (Some "regular").

(** A transfer without its ["type"] entry, and a block of a peer, on top
    of the genesis block, that holds it. *)
Definition tx_untyped : TransactionType :=
  mkTransaction (Some "x1") (Some "a") (Some "b") (Some 1%float) None.

Definition block_unreadable : BlockType :=
  mkBlock 2 "2025-03-01T15:00:00.031048" 1 genesis_hash [tx_untyped].

(** The block that ["alice"] mines on [ledger_t1] when the clock reads
    ["2025-03-01T16:00:00.004456"]: the third nonce passes. *)
Definition block_with_t1 : BlockType :=
  mkBlock 2 "2025-03-01T16:00:00.004456" 3 genesis_hash
    [mkTransaction (Some "coinbase-2") (Some "COINBASE") (Some "alice")
       (Some 50%float) (Some "coinbase");
     tx_t1].

(** The node of ["alice"], fresh, with two peers. *)
Definition node_alice : Node :=
  mkNode init 5000 "alice" [("127.0.0.1", 5001); ("127.0.0.1", 5002)] ∅.

(** The transfer that ["alice"] enters at her prompt, with the id that
    [uuid] gave, and the block that she mines next. *)
Definition tx_alice : TransactionType :=
  mkTransaction (Some "5f2b9a") (Some "alice") (Some "bob") (Some 2.5%float)
    (Some "regular").

Definition block_alice : BlockType :=
  mkBlock 2 "2025-03-01T17:00:00.042602" 1 genesis_hash
    [mkTransaction (Some "coinbase-2") (Some "COINBASE") (Some "alice")
       (Some 50%float) (Some "coinbase");
     tx_alice].

(** A second pending transfer, and a block of a peer on top of the genesis
    block that holds [tx_t1], the transfer without its ["type"] entry, and
    [tx_t2], in this order. *)
Definition tx_t2 : TransactionType :=
  mkTransaction (Some "t2") (Some "b") (Some "c") (Some 4%float) (Some "regular").

Definition block_partial : BlockType :=
  mkBlock 2 "2025-03-02T10:00:00.016571" 1 genesis_hash [tx_t1; tx_untyped; tx_t2].

Definition ledger_t1_t2 : Blockchain :=
  mkBlockchain [GENESIS] [("t1", tx_t1); ("t2", tx_t2)].

(** The blocks that ["carol"] and then ["dave"] mine on a fresh ledger when
    the clock reads ["2025-03-02T09:00:00.025019"] and
    ["2025-03-02T09:05:00.066981"]: the sixth and the fourth nonce pass.
    The block that ["carol"] mines next, at ["2025-03-02T09:10:00.002154"],
    has nonce 5. *)
Definition block_carol : BlockType :=
  mkBlock 2 "2025-03-02T09:00:00.025019" 6 genesis_hash
    [mkTransaction (Some "coinbase-2") (Some "COINBASE") (Some "carol")
       (Some 50%float) (Some "coinbase")].

Definition block_dave : BlockType :=
  mkBlock 3 "2025-03-02T09:05:00.066981" 4
    "00009219afa9fea33b6f29c46ac4327ea4127bd6b6095889a5fa6e76da38c85f"
    [mkTransaction (Some "coinbase-3") (Some "COINBASE") (Some "dave")
       (Some 50%float) (Some "coinbase")].

Definition block_carol_next : BlockType :=
  mkBlock 4 "2025-03-02T09:10:00.002154" 5
    "0000d692a5519c18804d3e6d5fde345d163720a812469945c0cf738b09beaf3c"
    [mkTransaction (Some "coinbase-4") (Some "COINBASE") (Some "carol")
       (Some 50%float) (Some "coinbase")].

Definition ledger_carol : Blockchain := mkBlockchain [GENESIS; block_carol] [].

Definition ledger_carol_dave : Blockchain :=
  mkBlockchain [GENESIS; block_carol; block_dave] [].

(** A regular transfer submitted under the id of the coinbase of
    [block_two], and the fresh ledger on which it is pending. *)
Definition tx_coinbase_id : TransactionType :=
  mkTransaction (Some "coinbase-2") (Some "a") (Some "b") (Some 10%float) (Some "regular").

Definition ledger_coinbase_id : Blockchain :=
  mkBlockchain [GENESIS] [("coinbase-2", tx_coinbase_id)].

(** ** The monad and the dictionary *)

Lemma bind_ok {A B : Type} (m : M A) (k : A → M B) self a self' :
  m self = (Ok a, self') → bind m k self = k a self'.
Proof. intros H. unfold bind. by rewrite H. Qed.

Lemma bind_raise {A B : Type} (m : M A) (k : A → M B) self e self' :
  m self = (Raise e, self') → bind m k self = (Raise e, self').
Proof. intros H. unfold bind. by rewrite H. Qed.

Lemma str_eqb_eq a b : str_eqb a b = true ↔ a = b.
Proof. unfold str_eqb. apply bool_decide_eq_true. Qed.

Lemma str_eqb_neq a b : str_eqb a b = false ↔ a ≠ b.
Proof. unfold str_eqb. apply bool_decide_eq_false. Qed.

Lemma dict_contains_get {V : Type} k (d : list (string * V)) :
  Dict.contains k d = true ↔ is_Some (Dict.get k d).
Proof.
  induction d as [|[k' v] d IH]; simpl.
  - split; [done | by intros [? ?]].
  - destruct (str_eqb k k'); simpl; [split; eauto | done].
Qed.

Lemma dict_contains_keys {V : Type} k (d : list (string * V)) :
  Dict.contains k d = true ↔ k ∈ Dict.keys d.
Proof.
  unfold Dict.keys. induction d as [|[k' v] d IH]; simpl.
  - split; [done | by intros ?%elem_of_nil].
  - rewrite elem_of_cons, orb_true_iff, str_eqb_eq. by rewrite IH.
Qed.

Lemma dict_get_elem_of {V : Type} k v (d : list (string * V)) :
  Dict.get k d = Some v → (k, v) ∈ d.
Proof.
  induction d as [|[k' v'] d IH]; simpl; [done |].
  destruct (str_eqb k k') eqn:E.
  - apply str_eqb_eq in E as ->. intros [= ->]. left.
  - intros H. right. by apply IH.
Qed.

Lemma dict_set_fresh {V : Type} k v (d : list (string * V)) :
  Dict.contains k d = false → Dict.set k v d = d ++ [(k, v)].
Proof.
  induction d as [|[k' v'] d IH]; simpl; [done |].
  intros [E1 E2]%orb_false_iff. rewrite E1. by rewrite IH.
Qed.

Lemma mempool_minus_nil m : mempool_minus m [] = m.
Proof.
  unfold mempool_minus. induction m as [|e m IH]; [done |].
  rewrite filter_cons_True; [by rewrite IH | apply not_elem_of_nil].
Qed.

Lemma mempool_minus_app m ids1 ids2 :
  mempool_minus (mempool_minus m ids1) ids2 = mempool_minus m (ids1 ++ ids2).
Proof.
  unfold mempool_minus. rewrite list_filter_filter. apply list_filter_iff.
  intros e. rewrite elem_of_app. tauto.
Qed.

Lemma pop_mempool_minus k (m : list (string * TransactionType)) :
  Dict.pop k m = mempool_minus m [k].
Proof.
  unfold Dict.pop, mempool_minus. apply list_filter_iff.
  intros e. rewrite list_elem_of_singleton. done.
Qed.

Lemma mempool_minus_subseteq m ids : mempool_minus m ids ⊆ m.
Proof. unfold mempool_minus. intros e [_ H]%list_elem_of_filter. done. Qed.

(** ** Chain validation *)

Lemma list_eqb_nil {A : Type} (eqb : A → A → bool) (l : list A) :
  list_eqb eqb l [] = true ↔ l = [].
Proof. destruct l; simpl; split; congruence. Qed.

Lemma block_eqb_GENESIS b : block_eqb b GENESIS = true ↔ b = GENESIS.
Proof.
  destruct b as [i t n p txs]. unfold block_eqb, GENESIS. simpl.
  rewrite !andb_true_iff, !str_eqb_eq, !Z.eqb_eq, list_eqb_nil.
  split; [intros [[[[-> ->] ->] ->] ->]; done | intros [= -> -> -> -> ->]; done].
Qed.

Lemma links_ok_spec prev rest :
  links_ok prev rest = true ↔
  ∀ (i : nat) p c, (prev :: rest) !! i = Some p → (prev :: rest) !! S i = Some c →
    previous_hash c = _hash_dict p ∧ startswith (_hash_dict c) "0000" = true.
Proof.
  revert prev. induction rest as [|curr rest IH]; intros prev; simpl.
  - split; [| done]. intros _ i p c _ H. by destruct i.
  - destruct (startswith (_hash_dict curr) "0000") eqn:Epow; simpl.
    + destruct (str_eqb (previous_hash curr) (_hash_dict prev)) eqn:Eprev; simpl.
      * apply str_eqb_eq in Eprev. rewrite IH. split.
        -- intros H [|i] p c Hp Hc; simpl in *.
           ++ by simplify_eq.
           ++ by apply (H i).
        -- intros H i p c Hp Hc. by apply (H (S i)).
      * apply str_eqb_neq in Eprev. split; [done |].
        intros H. destruct (H 0%nat prev curr) as [? _]; done.
    + split; [done |].
      intros H. destruct (H 0%nat prev curr) as [_ ?]; [done.. | congruence].
Qed.

Lemma is_chain_valid_nonempty c self :
  c ≠ [] → is_chain_valid (Some c) self = true ↔ chain_valid c.
Proof.
  intros Hne. destruct c as [|first rest]; [done |].
  unfold is_chain_valid, chain_valid. simpl.
  destruct (block_eqb first GENESIS) eqn:Eg; simpl.
  - apply block_eqb_GENESIS in Eg as ->. rewrite links_ok_spec. naive_solver.
  - split; [done |]. intros (_ & [= ->] & _).
    assert (block_eqb GENESIS GENESIS = true) by by apply block_eqb_GENESIS.
    congruence.
Qed.

Lemma is_chain_valid_nil self :
  is_chain_valid (Some []) self = is_chain_valid None self.
Proof. done. Qed.

Lemma chain_valid_dec c : Decision (chain_valid c).
Proof.
  destruct c as [|first rest].
  - right. by intros [? _].
  - destruct (is_chain_valid (Some (first :: rest)) init) eqn:E.
    + left. by apply (is_chain_valid_nonempty _ init).
    + right. intros H. apply (is_chain_valid_nonempty _ init) in H; [congruence | done].
Qed.

(** ** Removing confirmed transactions *)

Lemma remove_confirmed_typed txs self :
  Forall tx_typed txs →
  _remove_confirmed_from_mempool txs self
  = (Ok (), mkBlockchain (chain self) (mempool_minus (mempool self) (regular_ids txs))).
Proof.
  intros Hty. revert self. induction Hty as [|t txs [[tid Htid] [ty Hty']] _ IH]; intros self.
  - unfold _remove_confirmed_from_mempool. simpl. unfold ret.
    rewrite mempool_minus_nil. by destruct self.
  - unfold _remove_confirmed_from_mempool in *. simpl.
    unfold regular_ids, is_regular. simpl. rewrite Hty', Htid.
    unfold bind at 1. unfold bind at 1. simpl.
    unfold str_eqb. destruct (decide (ty = "regular")) as [->|Hne].
    + rewrite bool_decide_eq_true_2 by done. rewrite bool_decide_eq_true_2 by done.
      simpl. unfold bind at 1. simpl. rewrite IH. simpl.
      rewrite pop_mempool_minus, mempool_minus_app. done.
    + rewrite bool_decide_eq_false_2 by done.
      rewrite bool_decide_eq_false_2 by congruence. simpl. by rewrite IH.
Qed.

Lemma get_latest_block_ok self tip :
  last (chain self) = Some tip → get_latest_block self = (Ok tip, self).
Proof. intros H. unfold get_latest_block, bind, get_chain. simpl. by rewrite H. Qed.

Lemma get_latest_block_empty self :
  chain self = [] → get_latest_block self = (Raise IndexError, self).
Proof. intros H. unfold get_latest_block, bind, get_chain. simpl. by rewrite H. Qed.

(** ** validate_and_add_block *)

Lemma validate_and_add_block_accept block self tip :
  last (chain self) = Some tip → extends_tip tip block →
  validate_and_add_block block self
  = ((_remove_confirmed_from_mempool (transactions block) ;;; ret true)
       (mkBlockchain (chain self ++ [block]) (mempool self))).
Proof.
  intros Htip [Hprev Hpow]. unfold validate_and_add_block.
  rewrite (bind_ok _ _ _ _ _ (get_latest_block_ok _ _ Htip)).
  rewrite Hpow, Hprev. unfold str_eqb. rewrite bool_decide_eq_true_2 by done. done.
Qed.

Lemma validate_and_add_block_reject block self tip :
  last (chain self) = Some tip → ¬ extends_tip tip block →
  validate_and_add_block block self = (Ok false, self).
Proof.
  intros Htip Hno. unfold validate_and_add_block.
  rewrite (bind_ok _ _ _ _ _ (get_latest_block_ok _ _ Htip)).
  destruct (startswith (hash_block block) "0000") eqn:Epow; simpl; [| done].
  destruct (str_eqb (previous_hash block) (hash_block tip)) eqn:Eprev; simpl; [| done].
  apply str_eqb_eq in Eprev. destruct Hno. done.
Qed.

Lemma extends_tip_dec tip block : Decision (extends_tip tip block).
Proof. unfold extends_tip. apply _. Qed.

(** ** replace_chain *)

Lemma confirmed_ids_txs_typed txs acc :
  Forall tx_typed txs →
  ∃ ids, confirmed_ids_txs txs acc = Ok ids
         ∧ ∀ k, k ∈ ids ↔ k ∈ acc ∨ k ∈ regular_ids txs.
Proof.
  intros Hty. revert acc.
  induction Hty as [|t txs [[tid Htid] [ty Hty']] _ IH]; intros acc; simpl.
  - exists acc. split; [done |]. intros k. unfold regular_ids. simpl.
    rewrite elem_of_nil. tauto.
  - destruct t as [t1 t2 t3 t4 t5]. simpl in Htid, Hty'. subst t1 t5.
    unfold regular_ids, is_regular. simpl.
    unfold str_eqb. destruct (decide (ty = "regular")) as [->|Hne].
    + rewrite !bool_decide_eq_true_2 by done.
      destruct (IH ({[tid]} ∪ acc)) as (ids & -> & Hids). exists ids. split; [done |].
      intros k. rewrite Hids, elem_of_cons. set_solver.
    + rewrite bool_decide_eq_false_2 by done.
      rewrite bool_decide_eq_false_2 by congruence.
      destruct (IH acc) as (ids & -> & Hids). by exists ids.
Qed.

Lemma confirmed_ids_typed c acc :
  Forall block_typed c →
  ∃ ids, confirmed_ids c acc = Ok ids
         ∧ ∀ k, k ∈ ids ↔ k ∈ acc ∨ k ∈ regular_ids (chain_txs c).
Proof.
  intros Hty. revert acc. induction Hty as [|b c Hb _ IH]; intros acc; simpl.
  - exists acc. split; [done |]. intros k. unfold chain_txs, regular_ids. simpl.
    rewrite elem_of_nil. tauto.
  - destruct (confirmed_ids_txs_typed _ acc Hb) as (ids1 & -> & H1).
    destruct (IH ids1) as (ids & -> & Hids). exists ids. split; [done |].
    intros k. rewrite Hids, H1. unfold chain_txs, regular_ids. simpl.
    rewrite omap_app, elem_of_app. tauto.
Qed.

Lemma adoptable_test new_chain self :
  negb (is_chain_valid (Some new_chain) self)
  || (length new_chain <=? length (chain self))%nat = false
  ↔ adoptable new_chain self.
Proof.
  unfold adoptable. rewrite orb_false_iff, negb_false_iff, Nat.leb_gt.
  destruct new_chain as [|b c].
  - simpl. split; [lia |]. intros [[? _] _]. done.
  - rewrite is_chain_valid_nonempty by done. done.
Qed.

Lemma replace_chain_reject new_chain self :
  ¬ adoptable new_chain self → replace_chain new_chain self = (Ok false, self).
Proof.
  intros Hno. unfold replace_chain.
  destruct (negb _ || _) eqn:E; [done |].
  apply adoptable_test in E. done.
Qed.

Lemma replace_chain_adopt new_chain self :
  adoptable new_chain self →
  replace_chain new_chain self
  = match confirmed_ids new_chain ∅ with
    | Raise e => (Raise e, mkBlockchain new_chain (mempool self))
    | Ok ids => (Ok true, mkBlockchain new_chain (filter (λ e, e.1 ∉ ids) (mempool self)))
    end.
Proof.
  intros Hyes%adoptable_test. unfold replace_chain. rewrite Hyes.
  unfold bind, put_chain, get_chain. simpl. by destruct (confirmed_ids new_chain ∅).
Qed.

Lemma adoptable_dec new_chain self : Decision (adoptable new_chain self).
Proof.
  unfold adoptable. pose proof (chain_valid_dec new_chain). apply _.
Qed.

(** C1. [replace_chain] returns [False] exactly when the candidate is not
    both valid and strictly longer than the chain, and then the ledger
    (chain and mempool) is the one it started from.  A candidate that is
    valid and strictly longer becomes the chain, and [True] is returned for
    it whenever its transactions carry their ["type"] and ["tx_id"]
    entries; [True] is returned for no other candidate. *)
Theorem replace_chain_adopts_iff new_chain self :
  ((replace_chain new_chain self).1 = Ok false ↔ ¬ adoptable new_chain self)
  ∧ ((replace_chain new_chain self).1 = Ok false → (replace_chain new_chain self).2 = self)
  ∧ ((replace_chain new_chain self).1 = Ok true → adoptable new_chain self)
  ∧ (adoptable new_chain self → chain (replace_chain new_chain self).2 = new_chain)
  ∧ (Forall block_typed new_chain → adoptable new_chain self →
       (replace_chain new_chain self).1 = Ok true).
Proof.
  destruct (adoptable_dec new_chain self) as [Hyes|Hno].
  - rewrite (replace_chain_adopt _ _ Hyes).
    split_and!.
    + destruct (confirmed_ids new_chain ∅); simpl; split; done.
    + destruct (confirmed_ids new_chain ∅); simpl; done.
    + done.
    + intros _. by destruct (confirmed_ids new_chain ∅).
    + intros Hty _. destruct (confirmed_ids_typed _ ∅ Hty) as (ids & -> & _). done.
  - rewrite (replace_chain_reject _ _ Hno). simpl. split_and!; try done.
Qed.

(** ** add_transaction *)

Lemma falsy_false v : falsy v = false → ∃ s, v = Some s ∧ s ≠ "".
Proof.
  destruct v as [s|]; simpl; [| done]. intros H%str_eqb_neq. eauto.
Qed.

Lemma fields_pass_dec tx : Decision (fields_pass tx).
Proof.
  unfold fields_pass, amount_passes.
  assert (Decision (∃ amt, amount tx = Some amt ∧ PrimFloat.leb amt 0%float = false)).
  { destruct (amount tx) as [amt|].
    - destruct (PrimFloat.leb amt 0%float) eqn:E.
      + right. intros (a & [= <-] & ?). congruence.
      + left. eauto.
    - right. by intros (a & ? & _). }
  apply _.
Qed.

Lemma add_transaction_fields_fail tx self :
  ¬ fields_pass tx → add_transaction tx self = (Ok (false, tx), self).
Proof.
  intros Hno. unfold add_transaction.
  destruct (amount tx) as [amt|] eqn:Eamt; [| done].
  destruct (PrimFloat.leb amt 0%float) eqn:Eleb; [done |].
  destruct (falsy (sender tx)) eqn:Es; [done |].
  destruct (falsy (receiver tx)) eqn:Er; [done |].
  destruct (falsy (tx_id tx)) eqn:Ei; [done |]. simpl.
  destruct (bool_decide (type tx = Some "regular")) eqn:E1.
  { apply bool_decide_eq_true in E1. destruct Hno. unfold fields_pass, amount_passes. eauto 10. }
  destruct (bool_decide (type tx = Some "coinbase")) eqn:E2; [| done].
  apply bool_decide_eq_true in E2. destruct Hno. unfold fields_pass, amount_passes. eauto 10.
Qed.

Lemma add_transaction_fields_pass tx self tid :
  fields_pass tx → tx_id tx = Some tid →
  add_transaction tx self
  = match Dict.get tid (mempool self) with
    | Some stored => (Ok (false, stored), self)
    | None =>
        if bool_decide (type tx = Some "coinbase") then (Ok (false, tx), self)
        else (Ok (true, tx), mkBlockchain (chain self) (mempool self ++ [(tid, tx)]))
    end.
Proof.
  intros ((amt & Eamt & Eleb) & Es & Er & Ei & Hty) Htid. unfold add_transaction.
  rewrite Eamt, Eleb, Es, Er, Ei. simpl.
  assert (bool_decide (type tx = Some "regular") || bool_decide (type tx = Some "coinbase") = true) as ->.
  { destruct Hty as [H|H]; rewrite H; reflexivity. }
  simpl. rewrite Htid. unfold bind at 1. simpl.
  unfold bind at 1. unfold get_mempool at 1. simpl.
  destruct (Dict.contains tid (mempool self)) eqn:Ec.
  - apply dict_contains_get in Ec as [stored Hs]. rewrite Hs. done.
  - assert (Dict.get tid (mempool self) = None) as ->.
    { destruct (Dict.get tid (mempool self)) eqn:E; [| done].
      assert (Dict.contains tid (mempool self) = true) by (apply dict_contains_get; eauto).
      congruence. }
    destruct Hty as [H|H]; rewrite H; simpl.
    + unfold bind, put_mempool, ret. simpl. by rewrite dict_set_fresh.
    + done.
Qed.

Lemma fields_fail_iff tx : fields_fail tx ↔ ¬ fields_pass tx.
Proof.
  unfold fields_fail, fields_pass, amount_passes. split.
  - intros [H|[(amt & H & Hle)|[H|[H|[H|[H1 H2]]]]]] ((amt' & Ha & Hle') & Hs & Hr & Hi & Hty);
      [congruence | | congruence.. | by destruct Hty].
    rewrite H in Ha. simplify_eq. congruence.
  - intros Hno. destruct (amount tx) as [amt|] eqn:Eamt; [| by left].
    destruct (PrimFloat.leb amt 0%float) eqn:Ele; [right; left; eauto |].
    destruct (falsy (sender tx)) eqn:Es; [tauto |].
    destruct (falsy (receiver tx)) eqn:Er; [tauto |].
    destruct (falsy (tx_id tx)) eqn:Ei; [tauto |].
    do 5 right. split; intros Hty; apply Hno; eauto 10.
Qed.

(** C4, as the code has it.  [add_transaction] returns [added = False] and
    leaves the ledger as it was whenever the amount is absent or [amt <= 0]
    holds of it, or [sender], [receiver] or [tx_id] is empty or absent, or
    [type] is neither ["regular"] nor ["coinbase"], or the transaction is a
    coinbase.  Otherwise, a regular transaction whose id is not pending is
    appended to the mempool and returned with [added = True]. *)
Theorem add_transaction_spec tx self :
  (fields_fail tx → add_transaction tx self = (Ok (false, tx), self))
  ∧ (type tx = Some "coinbase" →
       ∃ tx', add_transaction tx self = (Ok (false, tx'), self))
  ∧ (∀ tid, ¬ fields_fail tx → type tx = Some "regular" → tx_id tx = Some tid →
       Dict.contains tid (mempool self) = false →
       add_transaction tx self
       = (Ok (true, tx), mkBlockchain (chain self) (mempool self ++ [(tid, tx)]))).
Proof.
  split_and!.
  - intros Hfail%fields_fail_iff. by apply add_transaction_fields_fail.
  - intros Hcb. destruct (fields_pass_dec tx) as [Hyes|Hno].
    + destruct (falsy_false _ (proj1 (proj2 (proj2 (proj2 Hyes))))) as (tid & Htid & _).
      rewrite (add_transaction_fields_pass _ _ _ Hyes Htid).
      destruct (Dict.get tid (mempool self)); [eauto |].
      rewrite bool_decide_eq_true_2 by done. eauto.
    + rewrite add_transaction_fields_fail by done. eauto.
  - intros tid Hok Hreg Htid Hfresh.
    assert (fields_pass tx) as Hyes.
    { destruct (fields_pass_dec tx) as [?|Hno]; [done |].
      by apply fields_fail_iff in Hno. }
    rewrite (add_transaction_fields_pass _ _ _ Hyes Htid).
    destruct (Dict.get tid (mempool self)) eqn:E.
    + assert (Dict.contains tid (mempool self) = true) by (apply dict_contains_get; eauto).
      congruence.
    + rewrite bool_decide_eq_false_2; [done | congruence].
Qed.

(** C7, as the code has it.  A submission that passes the field checks and
    whose [tx_id] is pending returns [added = False] with the entry stored
    in the mempool, and the ledger is unchanged. *)
Theorem add_transaction_duplicate tx self tid stored :
  fields_pass tx → tx_id tx = Some tid →
  Dict.get tid (mempool self) = Some stored →
  add_transaction tx self = (Ok (false, stored), self).
Proof.
  intros Hyes Htid Hs. rewrite (add_transaction_fields_pass _ _ _ Hyes Htid). by rewrite Hs.
Qed.

(** ** Ledgers that the operations can produce *)

Lemma mempool_ok_subseteq m m' : m' ⊆ m → mempool_ok m → mempool_ok m'.
Proof. intros Hsub H k tx Hin. apply H, Hsub, Hin. Qed.

Lemma remove_confirmed_cons t txs self :
  _remove_confirmed_from_mempool (t :: txs) self
  = match type t with
    | None => (Raise (KeyError "type"), self)
    | Some ty =>
        if str_eqb ty "regular" then
          match tx_id t with
          | None => (Raise (KeyError "tx_id"), self)
          | Some tid =>
              _remove_confirmed_from_mempool txs
                (mkBlockchain (chain self) (Dict.pop tid (mempool self)))
          end
        else _remove_confirmed_from_mempool txs self
    end.
Proof.
  unfold _remove_confirmed_from_mempool. simpl. unfold bind at 1. unfold bind at 1.
  destruct (type t) as [ty|]; simpl; [| done].
  destruct (str_eqb ty "regular"); simpl; [| done].
  unfold bind at 1. destruct (tx_id t) as [tid|]; simpl; done.
Qed.

Lemma remove_confirmed_any txs self :
  ∃ r ids, _remove_confirmed_from_mempool txs self
           = (r, mkBlockchain (chain self) (mempool_minus (mempool self) ids)).
Proof.
  assert (∀ self, self = mkBlockchain (chain self) (mempool_minus (mempool self) [])) as Hsame.
  { intros s. rewrite mempool_minus_nil. by destruct s. }
  revert self. induction txs as [|t txs IH]; intros self.
  - exists (Ok ()), []. unfold _remove_confirmed_from_mempool. simpl. unfold ret.
    by rewrite <- Hsame.
  - rewrite remove_confirmed_cons.
    destruct (type t) as [ty|]; [| exists (Raise (KeyError "type")), []; by rewrite <- Hsame].
    destruct (str_eqb ty "regular"); [| apply IH].
    destruct (tx_id t) as [tid|]; [| exists (Raise (KeyError "tx_id")), []; by rewrite <- Hsame].
    destruct (IH (mkBlockchain (chain self) (Dict.pop tid (mempool self)))) as (r & ids & ->).
    simpl. rewrite pop_mempool_minus, mempool_minus_app. eauto.
Qed.

Lemma validate_and_add_block_cases block self :
  validate_and_add_block block self = (Raise IndexError, self)
  ∨ validate_and_add_block block self = (Ok false, self)
  ∨ ∃ r ids, validate_and_add_block block self
             = (r, mkBlockchain (chain self ++ [block]) (mempool_minus (mempool self) ids)).
Proof.
  destruct (last (chain self)) as [tip|] eqn:Elast.
  - destruct (extends_tip_dec tip block) as [Hyes|Hno].
    + right. right. rewrite (validate_and_add_block_accept _ _ _ Elast Hyes).
      unfold bind.
      destruct (remove_confirmed_any (transactions block)
                  (mkBlockchain (chain self ++ [block]) (mempool self))) as (r & ids & ->).
      simpl. destruct r; eauto.
    + right. left. by apply (validate_and_add_block_reject _ _ tip).
  - left. apply last_None in Elast. unfold validate_and_add_block.
    by rewrite (bind_raise _ _ _ _ _ (get_latest_block_empty _ Elast)).
Qed.

Lemma validate_and_add_block_mempool block self :
  mempool (validate_and_add_block block self).2 ⊆ mempool self.
Proof.
  destruct (validate_and_add_block_cases block self) as [->|[->|(r & ids & ->)]];
    simpl; [done | done | apply mempool_minus_subseteq].
Qed.

Lemma replace_chain_mempool new_chain self :
  mempool (replace_chain new_chain self).2 ⊆ mempool self.
Proof.
  unfold replace_chain. destruct (negb _ || _); simpl; [done |].
  unfold bind, put_chain, get_chain. simpl.
  destruct (confirmed_ids new_chain ∅); simpl; [| done].
  intros e [_ H]%list_elem_of_filter. done.
Qed.

Lemma add_transaction_mempool_ok tx self :
  mempool_ok (mempool self) → mempool_ok (mempool (add_transaction tx self).2).
Proof.
  intros Hok. destruct (fields_pass_dec tx) as [Hyes|Hno].
  - destruct (falsy_false _ (proj1 (proj2 (proj2 (proj2 Hyes))))) as (tid & Htid & _).
    rewrite (add_transaction_fields_pass _ _ _ Hyes Htid).
    destruct (Dict.get tid (mempool self)); [done |].
    destruct (bool_decide (type tx = Some "coinbase")) eqn:E; [done |]. simpl.
    apply bool_decide_eq_false in E.
    intros k tx' [Hin|Hin%list_elem_of_singleton]%elem_of_app; [by apply Hok |].
    simplify_eq. destruct Hyes as (_ & _ & _ & _ & [H|H]); done.
  - by rewrite add_transaction_fields_fail.
Qed.

Lemma add_transaction_chain tx self : chain (add_transaction tx self).2 = chain self.
Proof.
  destruct (fields_pass_dec tx) as [Hyes|Hno].
  - destruct (falsy_false _ (proj1 (proj2 (proj2 (proj2 Hyes))))) as (tid & Htid & _).
    rewrite (add_transaction_fields_pass _ _ _ Hyes Htid).
    destruct (Dict.get tid (mempool self)); [done |].
    by destruct (bool_decide (type tx = Some "coinbase")).
  - by rewrite add_transaction_fields_fail.
Qed.

Lemma mine_block_cases fuel now miner self r self' :
  mine_block fuel now miner self = Some (r, self') →
  (chain self = [] ∧ self' = self)
  ∨ ∃ block ids, chain self' = chain self ++ [block]
                 ∧ mempool self' = mempool_minus (mempool self) ids.
Proof.
  unfold mine_block, get_latest_block, _build_block, bind, get_chain, ret. simpl.
  destruct (last (chain self)) as [tip|] eqn:Elast; simpl.
  - destruct (nonce_search _ _) as [block|]; [| done].
    destruct (remove_confirmed_any (transactions block)
                (mkBlockchain (chain self ++ [block]) (mempool self))) as (r' & ids & Hrem).
    simpl. unfold put_chain. simpl. rewrite Hrem.
    intros H. right. exists block, ids. destruct r'; simplify_eq; done.
  - apply last_None in Elast. intros [= <- <-]. by left.
Qed.

Lemma reachable_inv self :
  reachable self → chain self ≠ [] ∧ mempool_ok (mempool self).
Proof.
  induction 1 as [|tx self _ [IHc IHm]|fuel now miner self r self' _ [IHc IHm] Hm
                  |block self _ [IHc IHm]|new_chain self _ [IHc IHm]].
  - split; [done |]. intros k tx Hin. by apply elem_of_nil in Hin.
  - split; [by rewrite add_transaction_chain | by apply add_transaction_mempool_ok].
  - apply mine_block_cases in Hm as [[? ->]|(block & ids & Hc & Hmem)]; [done |].
    split.
    + rewrite Hc. intros H. by apply app_eq_nil in H as [_ ?].
    + rewrite Hmem. eapply mempool_ok_subseteq; [apply mempool_minus_subseteq | done].
  - split.
    + destruct (validate_and_add_block_cases block self) as [->|[->|(r & ids & ->)]];
        simpl; [done | done |].
      intros H. by apply app_eq_nil in H as [_ ?].
    + eapply mempool_ok_subseteq; [apply validate_and_add_block_mempool | done].
  - split.
    + destruct (adoptable_dec new_chain self) as [Hyes|Hno].
      * rewrite (replace_chain_adopt _ _ Hyes).
        destruct Hyes as [[Hne _] _]. by destruct (confirmed_ids new_chain ∅).
      * by rewrite replace_chain_reject.
    + eapply mempool_ok_subseteq; [apply replace_chain_mempool | done].
Qed.

Lemma confirmed_ids_txs_sound txs acc ids :
  confirmed_ids_txs txs acc = Ok ids →
  ∀ k, k ∈ ids ↔ k ∈ acc ∨ k ∈ regular_ids txs.
Proof.
  revert acc. induction txs as [|t txs IH]; intros acc; simpl.
  - intros [= <-] k. unfold regular_ids. simpl. rewrite elem_of_nil. tauto.
  - destruct t as [t1 t2 t3 t4 [ty|]]; simpl; [| done].
    unfold regular_ids, is_regular. simpl.
    unfold str_eqb. destruct (decide (ty = "regular")) as [->|Hne].
    + rewrite !bool_decide_eq_true_2 by done. destruct t1 as [tid|]; [| done].
      intros H k. rewrite (IH _ H), elem_of_cons. set_solver.
    + rewrite bool_decide_eq_false_2 by done.
      rewrite bool_decide_eq_false_2 by congruence. apply IH.
Qed.

Lemma confirmed_ids_sound c acc ids :
  confirmed_ids c acc = Ok ids →
  ∀ k, k ∈ ids ↔ k ∈ acc ∨ k ∈ regular_ids (chain_txs c).
Proof.
  revert acc. induction c as [|b c IH]; intros acc; simpl.
  - intros [= <-] k. unfold chain_txs, regular_ids. simpl. rewrite elem_of_nil. tauto.
  - destruct (confirmed_ids_txs (transactions b) acc) as [acc'|] eqn:E; [| done].
    intros H k. rewrite (IH _ H), (confirmed_ids_txs_sound _ _ _ E).
    unfold chain_txs, regular_ids. simpl. rewrite omap_app, elem_of_app. tauto.
Qed.

(** C5, as the code has it.  When [replace_chain] returns [True] on a
    ledger that the operations can produce, the candidate is the chain, and
    the mempool is the prior mempool without the entries whose id is the id
    of a regular transaction of the adopted chain.  Every entry of the new
    mempool was pending before, and no entry is a coinbase transaction: each
    is regular.  An entry that was pending stays pending exactly when its id
    is not the id of a regular transaction of the adopted chain, so an entry
    filed under the id of a coinbase of that chain stays. *)
Theorem replace_chain_mempool_spec new_chain self :
  reachable self →
  (replace_chain new_chain self).1 = Ok true →
  chain (replace_chain new_chain self).2 = new_chain
  ∧ mempool (replace_chain new_chain self).2
    = mempool_minus (mempool self) (regular_ids (chain_txs new_chain))
  ∧ (∀ e, e ∈ mempool (replace_chain new_chain self).2 → e ∈ mempool self)
  ∧ (∀ k tx, (k, tx) ∈ mempool (replace_chain new_chain self).2 →
       tx_id tx = Some k ∧ type tx = Some "regular" ∧ type tx ≠ Some "coinbase")
  ∧ (∀ k tx, (k, tx) ∈ mempool self →
       ((k, tx) ∈ mempool (replace_chain new_chain self).2
        ↔ k ∉ regular_ids (chain_txs new_chain))).
Proof.
  intros Hreach Htrue. pose proof (reachable_inv _ Hreach) as [_ Hok].
  pose proof (replace_chain_mempool new_chain self) as Hsub.
  destruct (adoptable_dec new_chain self) as [Hyes|Hno];
    [| by rewrite replace_chain_reject in Htrue].
  revert Htrue Hsub. rewrite (replace_chain_adopt _ _ Hyes).
  destruct (confirmed_ids new_chain ∅) as [ids|] eqn:Eids; simpl; [| done].
  intros _ Hsub. split_and!.
  - done.
  - unfold mempool_minus. apply list_filter_iff. intros e.
    rewrite (confirmed_ids_sound _ _ _ Eids). set_solver.
  - apply Hsub.
  - intros k tx Hin. destruct (Hok k tx (Hsub _ Hin)) as [? Hreg].
    split_and!; [done | done | by rewrite Hreg].
  - intros k tx Hin. rewrite list_elem_of_filter. simpl.
    rewrite (confirmed_ids_sound _ _ _ Eids). set_solver.
Qed.

(** ** mine_block *)

Lemma set_nonce_same b : set_nonce b (nonce b) = b.
Proof. by destruct b. Qed.

Lemma set_nonce_set_nonce b n n' : set_nonce (set_nonce b n) n' = set_nonce b n'.
Proof. done. Qed.

Lemma nonce_search_sound fuel b b' :
  nonce_search fuel b = Some b' →
  ∃ k : nat, (k < fuel)%nat ∧ b' = set_nonce b (nonce b + Z.of_nat k) ∧ pow_ok b' = true.
Proof.
  revert b. induction fuel as [|fuel IH]; intros b; simpl; [done |].
  destruct (pow_ok b) eqn:E.
  - intros [= <-]. exists 0%nat. rewrite Z.add_0_r, set_nonce_same. split_and!; [lia | done..].
  - intros (k & Hk & -> & Hpow)%IH. exists (S k). split_and!; [lia | | done].
    rewrite set_nonce_set_nonce. simpl. f_equal. lia.
Qed.

Lemma nonce_search_complete b (k : nat) :
  pow_ok (set_nonce b (nonce b + Z.of_nat k)) = true →
  ∃ b', nonce_search (S k) b = Some b'.
Proof.
  revert b. induction k as [|k IH]; intros b Hpow.
  - rewrite Z.add_0_r, set_nonce_same in Hpow. simpl. rewrite Hpow. eauto.
  - cbn [nonce_search]. destruct (pow_ok b); [eauto |].
    apply IH. rewrite set_nonce_set_nonce. simpl.
    replace (nonce b + 1 + Z.of_nat k) with (nonce b + Z.of_nat (S k)) by lia. done.
Qed.

Lemma nonce_search_mono fuel fuel' b b' :
  nonce_search fuel b = Some b' → (fuel ≤ fuel')%nat → nonce_search fuel' b = Some b'.
Proof.
  revert fuel' b. induction fuel as [|fuel IH]; intros fuel' b; simpl; [done |].
  intros H Hle. destruct fuel' as [|fuel']; [lia |]. simpl.
  destruct (pow_ok b); [done |]. apply IH; [done | lia].
Qed.

Lemma nonce_search_det fuel fuel' b b1 b2 :
  nonce_search fuel b = Some b1 → nonce_search fuel' b = Some b2 → b1 = b2.
Proof.
  intros H1 H2. destruct (Nat.le_ge_cases fuel fuel') as [Hle|Hle].
  - rewrite (nonce_search_mono _ _ _ _ H1 Hle) in H2. congruence.
  - rewrite (nonce_search_mono _ _ _ _ H2 Hle) in H1. congruence.
Qed.

Lemma nonce_search_first fuel b b' :
  nonce_search fuel b = Some b' →
  nonce b ≤ nonce b'
  ∧ b' = set_nonce b (nonce b')
  ∧ pow_ok b' = true
  ∧ ∀ n, nonce b ≤ n < nonce b' → pow_ok (set_nonce b n) = false.
Proof.
  revert b. induction fuel as [|fuel IH]; intros b; simpl; [done |].
  destruct (pow_ok b) eqn:E.
  - intros [= <-]. rewrite set_nonce_same. split_and!; [lia | done | done | lia].
  - intros (Hle & Heq & Hpow & Hfirst)%IH. simpl in *.
    split_and!; [lia | done | done |].
    intros n Hn. destruct (decide (n = nonce b)) as [->|Hne].
    + by rewrite set_nonce_same.
    + apply (Hfirst n). lia.
Qed.

Lemma mine_block_unfold fuel now miner self tip :
  last (chain self) = Some tip →
  mine_block fuel now miner self
  = match nonce_search fuel (candidate_block self tip now miner) with
    | None => None
    | Some block =>
        Some ((_remove_confirmed_from_mempool (transactions block) ;;; ret block)
                (mkBlockchain (chain self ++ [block]) (mempool self)))
    end.
Proof.
  intros Htip. unfold mine_block. rewrite (get_latest_block_ok _ _ Htip). done.
Qed.

Lemma coinbase_tx_typed n miner : tx_typed (coinbase_tx n miner).
Proof. split; eauto. Qed.

Lemma mempool_ok_values_typed m : mempool_ok m → Forall tx_typed (Dict.values m).
Proof.
  intros Hok. apply Forall_forall. intros tx Hin. unfold Dict.values in Hin.
  apply list_elem_of_fmap in Hin as ([k tx'] & -> & Hin). simpl.
  destruct (Hok _ _ Hin) as [H1 H2]. split; [by rewrite H1 | by rewrite H2].
Qed.

Lemma filter_none {A : Type} (P : A → Prop) `{∀ x, Decision (P x)} (l : list A) :
  (∀ x, x ∈ l → ¬ P x) → filter P l = [].
Proof.
  induction l as [|x l IH]; intros Hall; [done |].
  rewrite filter_cons_False by (apply Hall; left).
  apply IH. intros y Hy. apply Hall. by right.
Qed.

Lemma mempool_ok_minus_values m txs :
  mempool_ok m → mempool_minus m (regular_ids (txs ++ Dict.values m)) = [].
Proof.
  intros Hok. unfold mempool_minus. apply filter_none.
  intros [k tx] Hin Hnot. apply Hnot. simpl.
  destruct (Hok _ _ Hin) as [Hid Hreg].
  unfold regular_ids. rewrite omap_app, elem_of_app. right.
  apply list_elem_of_omap. exists tx. split.
  - unfold Dict.values. apply list_elem_of_fmap. by exists (k, tx).
  - unfold is_regular. by rewrite bool_decide_eq_true_2.
Qed.

Lemma mine_block_ok fuel now miner self tip block :
  last (chain self) = Some tip → mempool_ok (mempool self) →
  nonce_search fuel (candidate_block self tip now miner) = Some block →
  mine_block fuel now miner self
  = Some (Ok block, mkBlockchain (chain self ++ [block]) []).
Proof.
  intros Htip Hok Hsearch. rewrite (mine_block_unfold _ _ _ _ _ Htip), Hsearch.
  apply nonce_search_sound in Hsearch as (k & _ & -> & _).
  unfold bind. rewrite remove_confirmed_typed; simpl.
  - pose proof (mempool_ok_minus_values _ [] Hok) as Hempty. simpl in Hempty.
    by rewrite Hempty.
  - constructor; [apply coinbase_tx_typed | by apply mempool_ok_values_typed].
Qed.

(** C10. On a ledger with a tip whose pending entries are regular
    transactions filed under their ids, [mine_block] returns as soon as some
    nonce gives the proof of work; the block it returns carries the
    coinbase and then every pending transaction, and the mempool is empty
    afterwards.  Every run that returns gives this block and this
    ledger. *)
Theorem mine_block_empties_mempool self tip now miner :
  last (chain self) = Some tip →
  mempool_ok (mempool self) →
  solvable (candidate_block self tip now miner) →
  ∃ fuel block self',
    mine_block fuel now miner self = Some (Ok block, self')
    ∧ transactions block
      = coinbase_tx (length (chain self)) miner :: Dict.values (mempool self)
    ∧ chain self' = chain self ++ [block]
    ∧ mempool self' = []
    ∧ ∀ fuel' r, mine_block fuel' now miner self = Some r → r = (Ok block, self').
Proof.
  intros Htip Hok [k Hk]. apply nonce_search_complete in Hk as [block Hsearch].
  exists (S k), block, (mkBlockchain (chain self ++ [block]) []).
  split_and!; try done.
  - by apply (mine_block_ok _ _ _ _ tip).
  - apply nonce_search_sound in Hsearch as (j & _ & -> & _). done.
  - intros fuel' r Hr. rewrite (mine_block_unfold _ _ _ _ _ Htip) in Hr.
    destruct (nonce_search fuel' _) as [block'|] eqn:E; [| done].
    pose proof (nonce_search_det _ _ _ _ _ E Hsearch) as ->.
    pose proof (mine_block_ok _ _ _ _ _ _ Htip Hok E) as Hm.
    rewrite (mine_block_unfold _ _ _ _ _ Htip), E in Hm. congruence.
Qed.

(** ** Chains built by mining *)

Lemma locally_built_reachable miners self : locally_built miners self → reachable self.
Proof.
  induction 1 as [|miners tx self _ IH|miners fuel now miner self block self' _ IH Hm].
  - constructor.
  - by constructor.
  - by eapply reach_mine_block.
Qed.

Lemma last_is_Some {A : Type} (l : list A) : l ≠ [] → ∃ x, last l = Some x.
Proof.
  intros Hne. destruct (last l) as [x|] eqn:E; [eauto |]. by apply last_None in E.
Qed.

Lemma chain_valid_snoc c tip b :
  chain_valid c → last c = Some tip →
  previous_hash b = _hash_dict tip → startswith (_hash_dict b) "0000" = true →
  chain_valid (c ++ [b]).
Proof.
  intros (Hne & Hhead & Hlinks) Htip Hprev Hpow. split_and!.
  - intros H. by apply app_eq_nil in H as [_ ?].
  - destruct c; [done | done].
  - intros i prev curr Hi HSi.
    assert (S i < length (c ++ [b]))%nat as Hlen by (by eapply lookup_lt_Some).
    rewrite length_app in Hlen. simpl in Hlen.
    destruct (decide (S i < length c)%nat) as [Hlt|Hge].
    + rewrite lookup_app_l in Hi by lia. rewrite lookup_app_l in HSi by lia.
      by apply (Hlinks i).
    + assert (S i = length c) as Hi' by lia.
      rewrite lookup_app_l in Hi by lia.
      rewrite lookup_app_r in HSi by lia. rewrite Hi', Nat.sub_diag in HSi.
      simpl in HSi. simplify_eq.
      rewrite last_lookup in Htip. rewrite <- Hi' in Htip. simpl in Htip.
      by simplify_eq.
Qed.

Lemma mine_block_returns fuel now miner self r self' tip :
  last (chain self) = Some tip → mempool_ok (mempool self) →
  mine_block fuel now miner self = Some (r, self') →
  ∃ k : nat,
    r = Ok (set_nonce (candidate_block self tip now miner) (1 + Z.of_nat k))
    ∧ startswith
        (_hash_dict (set_nonce (candidate_block self tip now miner) (1 + Z.of_nat k)))
        "0000" = true
    ∧ self'
      = mkBlockchain
          (chain self ++ [set_nonce (candidate_block self tip now miner) (1 + Z.of_nat k)])
          [].
Proof.
  intros Htip Hok Hm. pose proof Hm as Hm'.
  rewrite (mine_block_unfold _ _ _ _ _ Htip) in Hm'.
  destruct (nonce_search fuel _) as [block|] eqn:E; [| done]. clear Hm'.
  rewrite (mine_block_ok _ _ _ _ _ _ Htip Hok E) in Hm.
  apply nonce_search_sound in E as (k & _ & -> & Hpow).
  exists k. simplify_eq. done.
Qed.

Lemma locally_built_facts miners self :
  locally_built miners self → built_facts miners self.
Proof.
  intros Hb. pose proof (locally_built_reachable _ _ Hb) as Hreach. revert Hreach.
  induction Hb as [|miners tx self Hb IH|miners fuel now miner self block self' Hb IH Hm];
    intros Hreach.
  - split; simpl.
    + done.
    + split_and!; [done | done |]. intros [|i] prev curr; simpl; [done |].
      by rewrite lookup_nil.
    + intros [|i] b; simpl; [by intros [= <-] | by rewrite lookup_nil].
    + intros i miner. by rewrite lookup_nil.
  - pose proof (locally_built_reachable _ _ Hb) as Hr. destruct (IH Hr) as [H1 H2 H3 H4].
    split; rewrite add_transaction_chain; done.
  - pose proof (locally_built_reachable _ _ Hb) as Hr. destruct (IH Hr) as [H1 H2 H3 H4].
    destruct (reachable_inv _ Hr) as [Hne Hok].
    destruct (last_is_Some _ Hne) as [tip Htip].
    destruct (mine_block_returns _ _ _ _ _ _ _ Htip Hok Hm) as (k & [= ->] & Hpow & ->).
    split; simpl.
    + rewrite !length_app. simpl. lia.
    + by apply (chain_valid_snoc _ tip).
    + intros i b Hi.
      assert (i < length (chain self ++ [set_nonce (candidate_block self tip now miner)
                                            (1 + Z.of_nat k)]))%nat as Hlen
        by (by eapply lookup_lt_Some).
      rewrite length_app in Hlen. simpl in Hlen.
      destruct (decide (i < length (chain self))%nat) as [Hlt|Hge].
      * rewrite lookup_app_l in Hi by lia. by apply H3.
      * rewrite lookup_app_r in Hi by lia.
        replace (i - length (chain self))%nat with 0%nat in Hi by lia.
        simpl in Hi. simplify_eq. simpl. lia.
    + intros i miner' Hi.
      assert (i < length (miners ++ [miner]))%nat as Hlen by (by eapply lookup_lt_Some).
      rewrite length_app in Hlen. simpl in Hlen.
      destruct (decide (i < length miners)%nat) as [Hlt|Hge].
      * rewrite lookup_app_l in Hi by lia. destruct (H4 _ _ Hi) as (b & Hb' & Hcb).
        exists b. split; [| done]. rewrite lookup_app_l; [done |].
        by eapply lookup_lt_Some.
      * rewrite lookup_app_r in Hi by lia.
        replace (i - length miners)%nat with 0%nat in Hi by lia.
        simpl in Hi. simplify_eq.
        exists (set_nonce (candidate_block self tip now miner') (1 + Z.of_nat k)).
        split.
        -- rewrite lookup_app_r by lia.
           replace (S i - length (chain self))%nat with 0%nat by lia. done.
        -- simpl. do 2 f_equal. lia.
Qed.

(** C6. A ledger built from a fresh one by [n] calls of [mine_block] that
    returned has a chain of [n + 1] blocks; every block names the hash of
    its predecessor and every block after the genesis has a hash that
    starts with ["0000"]; the [i]-th mined block begins with a coinbase
    transaction that pays the miner of that call the reward of 50.
    A further call returns, and never raises, as soon as the block that it
    is to build has a hash that starts with ["0000"] for some nonce
    [n >= 1]: it then returns that block with the least such nonce [n0],
    after [n0] tests and no fewer, and the ledger it leaves is again built
    by calls of [mine_block]. *)
Theorem mine_n_times miners self :
  locally_built miners self →
  length (chain self) = S (length miners)
  ∧ head (chain self) = Some GENESIS
  ∧ (∀ (i : nat) prev curr, chain self !! i = Some prev → chain self !! S i = Some curr →
       previous_hash curr = hash_block prev
       ∧ startswith (hash_block curr) "0000" = true)
  ∧ (∀ (i : nat) miner, miners !! i = Some miner →
       ∃ b cb rest, chain self !! S i = Some b ∧ transactions b = cb :: rest
                    ∧ type cb = Some "coinbase" ∧ receiver cb = Some miner
                    ∧ amount cb = Some 50%float)
  ∧ (∃ tip, last (chain self) = Some tip
       ∧ ∀ now miner (n : Z), 1 ≤ n →
           startswith (_hash_dict (mined_block self tip now miner n)) "0000" = true →
           ∃ n0, 1 ≤ n0 ≤ n
             ∧ startswith (_hash_dict (mined_block self tip now miner n0)) "0000" = true
             ∧ (∀ m, 1 ≤ m < n0 →
                  startswith (_hash_dict (mined_block self tip now miner m)) "0000" = false)
             ∧ (∀ fuel, (Z.to_nat n0 ≤ fuel)%nat →
                  mine_block fuel now miner self
                  = Some (Ok (mined_block self tip now miner n0),
                          mkBlockchain
                            (chain self ++ [mined_block self tip now miner n0]) []))
             ∧ (∀ fuel, (fuel < Z.to_nat n0)%nat → mine_block fuel now miner self = None)
             ∧ locally_built (miners ++ [miner])
                 (mkBlockchain (chain self ++ [mined_block self tip now miner n0]) [])).
Proof.
  intros Hb. destruct (locally_built_facts _ _ Hb) as [H1 (Hne & Hhead & Hlinks) H3 H4].
  destruct (reachable_inv _ (locally_built_reachable _ _ Hb)) as [_ Hok].
  split_and!; [done | done | done | |].
  - intros i miner Hi. destruct (H4 _ _ Hi) as (b & Hb' & Hcb).
    destruct (transactions b) as [|cb rest] eqn:E; [done |]. simpl in Hcb.
    exists b, cb, rest. by simplify_eq.
  - destruct (last_is_Some _ Hne) as [tip Htip]. exists tip. split; [done |].
    intros now miner n Hn Hpow.
    assert (∀ m, set_nonce (candidate_block self tip now miner) m
                 = mined_block self tip now miner m) as Hcand by done.
    destruct (nonce_search_complete (candidate_block self tip now miner) (Z.to_nat (n - 1)))
      as [block Hsearch].
    { simpl. replace (1 + Z.of_nat (Z.to_nat (n - 1))) with n by lia.
      by rewrite Hcand. }
    destruct (nonce_search_first _ _ _ Hsearch) as (Hle & Heq & Hpow0 & Hfirst).
    destruct (nonce_search_sound _ _ _ Hsearch) as (k & Hk & Hblock & _).
    simpl in Hle. rewrite Hcand in Heq.
    assert (nonce block ≤ n) as Hle'.
    { rewrite Hblock. simpl. lia. }
    assert (nonce_search (Z.to_nat (nonce block)) (candidate_block self tip now miner)
            = Some block) as Hexact.
    { destruct (nonce_search_complete (candidate_block self tip now miner)
                  (Z.to_nat (nonce block - 1))) as [block' Hsearch'].
      - simpl. replace (1 + Z.of_nat (Z.to_nat (nonce block - 1))) with (nonce block) by lia.
        by rewrite Hcand, <- Heq.
      - rewrite <- (nonce_search_det _ _ _ _ _ Hsearch Hsearch') in Hsearch'.
        replace (Z.to_nat (nonce block)) with (S (Z.to_nat (nonce block - 1))) by lia.
        done. }
    exists (nonce block). rewrite <- Heq.
    split_and!; [lia | lia | done | | | |].
    + intros m Hm. rewrite <- Hcand. apply Hfirst. simpl. lia.
    + intros fuel Hfuel. apply (mine_block_ok _ _ _ _ tip); [done | done |].
      by apply (nonce_search_mono _ _ _ _ Hexact).
    + intros fuel Hfuel. rewrite (mine_block_unfold _ _ _ _ _ Htip).
      destruct (nonce_search fuel _) as [block'|] eqn:E; [| done].
      pose proof (nonce_search_det _ _ _ _ _ E Hsearch) as ->.
      apply nonce_search_sound in E as (j & Hj & Hblock' & _).
      rewrite Hblock' in Hfuel. simpl in Hfuel. lia.
    + apply (built_mine_block miners (Z.to_nat (nonce block)) now miner self block);
        [done |].
      by apply (mine_block_ok _ _ _ _ tip).
Qed.

(** C9, as the code has it.  In a chain built locally, by mining and
    submissions alone, the [index] of each block is its 1-based position. *)
Theorem locally_built_index miners self :
  locally_built miners self →
  ∀ (i : nat) b, chain self !! i = Some b → index b = Z.of_nat i + 1.
Proof. intros Hb. by destruct (locally_built_facts _ _ Hb). Qed.

(** ** The listener on new_transaction *)

Lemma listen_step_seen self addr payload :
  seen_tx_ids self ⊆ seen_tx_ids (listen_step self addr payload).1.
Proof.
  destruct payload as [tx ttl0|block| |remote]; simpl.
  - destruct (tx_id tx) as [tid|]; [| done].
    destruct (str_eqb tid "" || bool_decide (tid ∈ seen_tx_ids self)); [done |].
    destruct (add_transaction tx _) as [[?|?] bc]; [| simpl; set_solver].
    destruct (0 <? default 4 ttl0); simpl; set_solver.
  - destruct (validate_and_add_block block _) as [[[|]|?] bc]; done.
  - done.
  - by destruct (replace_chain remote _).
Qed.

Lemma listen_steps_seen self inbox :
  seen_tx_ids self ⊆ seen_tx_ids (listen_steps self inbox).
Proof.
  revert self. induction inbox as [|[addr payload] inbox IH]; intros self; simpl; [done |].
  etrans; [apply listen_step_seen | apply IH].
Qed.

Lemma listen_step_dropped self addr tx ttl0 :
  (falsy (tx_id tx) = true ∨ ∃ tid, tx_id tx = Some tid ∧ tid ∈ seen_tx_ids self) →
  listen_step self addr (new_transaction tx ttl0) = (self, []).
Proof.
  simpl. intros [Hf|(tid & -> & Hseen)].
  - destruct (tx_id tx) as [tid|]; [| done]. simpl in Hf. by rewrite Hf.
  - by rewrite bool_decide_eq_true_2, orb_true_r.
Qed.

Lemma add_transaction_ok tx self : ∃ added tx', (add_transaction tx self).1 = Ok (added, tx').
Proof.
  destruct (fields_pass_dec tx) as [Hyes|Hno].
  - destruct (falsy_false _ (proj1 (proj2 (proj2 (proj2 Hyes))))) as (tid & Htid & _).
    rewrite (add_transaction_fields_pass _ _ _ Hyes Htid).
    destruct (Dict.get tid (mempool self)); [eauto |].
    destruct (bool_decide (type tx = Some "coinbase")); eauto.
  - rewrite add_transaction_fields_fail by done. eauto.
Qed.

Lemma add_transaction_mempool_cases tx self :
  mempool (add_transaction tx self).2 = mempool self
  ∨ ∃ tid, tx_id tx = Some tid
           ∧ mempool (add_transaction tx self).2 = mempool self ++ [(tid, tx)].
Proof.
  destruct (fields_pass_dec tx) as [Hyes|Hno].
  - destruct (falsy_false _ (proj1 (proj2 (proj2 (proj2 Hyes))))) as (tid & Htid & _).
    rewrite (add_transaction_fields_pass _ _ _ Hyes Htid).
    destruct (Dict.get tid (mempool self)); [by left |].
    destruct (bool_decide (type tx = Some "coinbase")); [by left |]. right. eauto.
  - rewrite add_transaction_fields_fail by done. by left.
Qed.

Lemma listen_step_fresh self addr tx ttl0 tid :
  tx_id tx = Some tid → tid ≠ "" → tid ∉ seen_tx_ids self →
  listen_step self addr (new_transaction tx ttl0)
  = (mkNode (add_transaction tx (blockchain self)).2 (port self) (address self)
            (peers self) ({[tid]} ∪ seen_tx_ids self),
     if 0 <? default 4 ttl0
     then (λ peer, (new_transaction tx (Some (default 4 ttl0 - 1)), peer))
            <$> filter (λ peer, peer ≠ addr) (peers self)
     else []).
Proof.
  intros Htid Hne Hfresh. simpl. rewrite Htid.
  apply str_eqb_neq in Hne. rewrite Hne. rewrite bool_decide_eq_false_2 by done. simpl.
  destruct (add_transaction_ok tx (blockchain self)) as (added & tx' & Hr).
  destruct (add_transaction tx (blockchain self)) as [r bc]. simpl in Hr. subst r. simpl.
  destruct (0 <? default 4 ttl0); [| done].
  unfold _broadcast, with_blockchain, with_seen. simpl. do 2 f_equal.
  apply list_filter_iff. intros peer. split; intros H; congruence.
Qed.

(** C8, as the code has it.  On a [new_transaction] datagram: when the id
    is absent, empty or already seen, the node is unchanged and nothing is
    sent.  When the id is not empty and not seen, it is added to the seen
    set whatever [add_transaction] answers, the ledger is the one that
    [add_transaction] leaves (at most one entry more in the mempool), and
    the transaction is sent with [ttl - 1] to every peer other than the
    sender exactly when [ttl > 0] (an absent [ttl] counts as 4).  After a
    first delivery, whatever datagrams follow, a delivery of the same id is
    dropped: the node is unchanged and nothing is sent. *)
Theorem listen_new_transaction self addr tx ttl0 :
  ((falsy (tx_id tx) = true ∨ ∃ tid, tx_id tx = Some tid ∧ tid ∈ seen_tx_ids self) →
     listen_step self addr (new_transaction tx ttl0) = (self, []))
  ∧ (∀ tid, tx_id tx = Some tid → tid ≠ "" → tid ∉ seen_tx_ids self →
       listen_step self addr (new_transaction tx ttl0)
       = (mkNode (add_transaction tx (blockchain self)).2 (port self) (address self)
                 (peers self) ({[tid]} ∪ seen_tx_ids self),
          if 0 <? default 4 ttl0
          then (λ peer, (new_transaction tx (Some (default 4 ttl0 - 1)), peer))
                 <$> filter (λ peer, peer ≠ addr) (peers self)
          else [])
       ∧ (mempool (add_transaction tx (blockchain self)).2 = mempool (blockchain self)
          ∨ mempool (add_transaction tx (blockchain self)).2
            = mempool (blockchain self) ++ [(tid, tx)]))
  ∧ (∀ inbox addr' tx' ttl', tx_id tx' = tx_id tx →
       listen_step
         (listen_steps (listen_step self addr (new_transaction tx ttl0)).1 inbox)
         addr' (new_transaction tx' ttl')
       = (listen_steps (listen_step self addr (new_transaction tx ttl0)).1 inbox, [])).
Proof.
  split_and!.
  - apply listen_step_dropped.
  - intros tid Htid Hne Hfresh. split; [by apply listen_step_fresh |].
    destruct (add_transaction_mempool_cases tx (blockchain self)) as [H|(tid' & Htid' & H)];
      [by left | right]. by simplify_eq.
  - intros inbox addr' tx' ttl' Hsame. apply listen_step_dropped. rewrite Hsame.
    destruct (tx_id tx) as [tid|] eqn:Htid; [| by left].
    destruct (decide (tid = "")) as [->|Hne]; [by left |]. right. exists tid. split; [done |].
    apply listen_steps_seen.
    destruct (decide (tid ∈ seen_tx_ids self)) as [Hseen|Hfresh].
    + by apply listen_step_seen.
    + rewrite (listen_step_fresh _ _ _ _ _ Htid Hne Hfresh). simpl. set_solver.
Qed.

Lemma listen_new_block_step self addr block tip :
  last (chain (blockchain self)) = Some tip → block_typed block →
  listen_step self addr (new_block block)
  = if decide (extends_tip tip block)
    then (with_blockchain self
            (mkBlockchain (chain (blockchain self) ++ [block])
               (mempool_minus (mempool (blockchain self))
                  (regular_ids (transactions block)))), [])
    else (self, [(REQ_CHAIN, addr)]).
Proof.
  intros Htip Hty. simpl. destruct (decide (extends_tip tip block)) as [Hyes|Hno].
  - rewrite (validate_and_add_block_accept _ _ _ Htip Hyes).
    unfold bind. by rewrite (remove_confirmed_typed _ _ Hty).
  - rewrite (validate_and_add_block_reject _ _ _ Htip Hno). by destruct self.
Qed.

(** X9. The listener on [new_block], for a block whose transactions carry
    their ["type"] and ["tx_id"] entries: a block that does not name the
    hash of the tip, or lacks the proof of work, leaves the node as it was
    and one [REQ_CHAIN] goes to the sender; a block that passes both tests
    is appended, the ids of its regular transactions leave the mempool, and
    nothing is sent (the block is not relayed). *)
Theorem listen_new_block self addr block tip :
  last (chain (blockchain self)) = Some tip → block_typed block →
  (¬ extends_tip tip block →
     listen_step self addr (new_block block) = (self, [(REQ_CHAIN, addr)]))
  ∧ (extends_tip tip block →
     listen_step self addr (new_block block)
     = (with_blockchain self
          (mkBlockchain (chain (blockchain self) ++ [block])
             (mempool_minus (mempool (blockchain self))
                (regular_ids (transactions block)))), [])).
Proof.
  intros Htip Hty. rewrite (listen_new_block_step _ _ _ _ Htip Hty).
  split; intros H; [by rewrite decide_False | by rewrite decide_True].
Qed.

(** ** is_chain_valid on an empty argument *)

(** C2, at the input where the code departs from it.  An empty list is
    falsy, so [chain or self.chain] replaces it by the node's own chain
    before the [not chain] test: on a fresh ledger [is_chain_valid([])]
    answers [True]. *)
Theorem is_chain_valid_empty_chain :
  is_chain_valid (Some []) init = true
  ∧ ∀ self, is_chain_valid (Some []) self = is_chain_valid None self.
Proof. split; [vm_compute; reflexivity | done]. Qed.

(** C2 on every other input: a chain that is not empty is found valid
    exactly when it starts with the genesis block and every block names
    the hash of its predecessor and carries the proof of work. *)
Lemma is_chain_valid_spec (c : list BlockType) self :
  c ≠ [] →
  is_chain_valid (Some c) self = true
  ↔ head c = Some GENESIS
    ∧ ∀ (i : nat) prev curr, c !! i = Some prev → c !! S i = Some curr →
        previous_hash curr = _hash_dict prev
        ∧ startswith (_hash_dict curr) "0000" = true.
Proof.
  intros Hne. rewrite (is_chain_valid_nonempty _ _ Hne). unfold chain_valid. tauto.
Qed.

(** ** Invariants of the ledger *)

Lemma add_transaction_effect tx self :
  add_transaction tx self = ((add_transaction tx self).1, self)
  ∨ ∃ tid, tx_id tx = Some tid ∧ fields_pass tx ∧ type tx = Some "regular"
           ∧ Dict.contains tid (mempool self) = false
           ∧ add_transaction tx self
             = (Ok (true, tx), mkBlockchain (chain self) (mempool self ++ [(tid, tx)])).
Proof.
  destruct (fields_pass_dec tx) as [Hyes|Hno].
  - destruct (falsy_false _ (proj1 (proj2 (proj2 (proj2 Hyes))))) as (tid & Htid & _).
    rewrite (add_transaction_fields_pass _ _ _ Hyes Htid).
    destruct (Dict.get tid (mempool self)) eqn:Eget; [by left |].
    destruct (bool_decide (type tx = Some "coinbase")) eqn:E; [by left |]. right.
    apply bool_decide_eq_false in E. exists tid. split_and!; try done.
    + by destruct Hyes as (_ & _ & _ & _ & [H|H]).
    + destruct (Dict.contains tid (mempool self)) eqn:Ec; [| done].
      apply dict_contains_get in Ec as [? ?]. congruence.
  - rewrite add_transaction_fields_fail by done. by left.
Qed.

Lemma mine_block_step fuel now miner self r self' :
  reachable self → mine_block fuel now miner self = Some (r, self') →
  ∃ tip block, last (chain self) = Some tip ∧ r = Ok block
               ∧ previous_hash block = _hash_dict tip
               ∧ startswith (_hash_dict block) "0000" = true
               ∧ self' = mkBlockchain (chain self ++ [block]) [].
Proof.
  intros Hreach Hm. destruct (reachable_inv _ Hreach) as [Hne Hok].
  destruct (last_is_Some _ Hne) as [tip Htip].
  destruct (mine_block_returns _ _ _ _ _ _ _ Htip Hok Hm) as (k & -> & Hpow & ->).
  exists tip, (set_nonce (candidate_block self tip now miner) (1 + Z.of_nat k)).
  split_and!; done.
Qed.

Lemma reachable_chain_valid_aux self : reachable self → chain_valid (chain self).
Proof.
  induction 1 as [|tx self _ IH|fuel now miner self r self' Hreach IH Hm
                  |block self Hreach IH|new_chain self _ IH].
  - split_and!; [done | done |]. intros [|i] prev curr; simpl; [done |].
    by rewrite lookup_nil.
  - by rewrite add_transaction_chain.
  - destruct (mine_block_step _ _ _ _ _ _ Hreach Hm) as (tip & block & Htip & _ & Hp & Hw & ->).
    simpl. by apply (chain_valid_snoc _ tip).
  - destruct (reachable_inv _ Hreach) as [Hne _].
    destruct (last_is_Some _ Hne) as [tip Htip].
    destruct (extends_tip_dec tip block) as [[Hp Hw]|Hno].
    + destruct (validate_and_add_block_cases block self) as [H|[H|(r & ids & H)]].
      * by rewrite H.
      * by rewrite H.
      * rewrite H. simpl. by apply (chain_valid_snoc _ tip).
    + by rewrite (validate_and_add_block_reject _ _ _ Htip Hno).
  - destruct (adoptable_dec new_chain self) as [Hyes|Hno].
    + rewrite (replace_chain_adopt _ _ Hyes). destruct Hyes as [Hv _].
      by destruct (confirmed_ids new_chain ∅).
    + by rewrite replace_chain_reject.
Qed.

(** X1. On every ledger that the operations can produce,
    [is_chain_valid()] on the own chain answers [True]: the chain starts
    with the genesis block, and every later block names the hash of its
    predecessor and carries the proof of work. *)
Theorem reachable_chain_valid self :
  reachable self →
  is_chain_valid None self = true
  ∧ head (chain self) = Some GENESIS
  ∧ ∀ (i : nat) prev curr, chain self !! i = Some prev → chain self !! S i = Some curr →
      previous_hash curr = hash_block prev ∧ pow_ok curr = true.
Proof.
  intros Hreach. pose proof (reachable_chain_valid_aux _ Hreach) as Hv.
  destruct Hv as (Hne & Hhead & Hlinks). split_and!; [| done | done].
  destruct (chain self) as [|first rest] eqn:E; [done |].
  replace (is_chain_valid None self) with (is_chain_valid (Some (first :: rest)) self).
  - apply is_chain_valid_nonempty; [done |]. by split_and!.
  - unfold is_chain_valid. simpl. by rewrite E.
Qed.

Lemma mempool_minus_keys_NoDup m ids :
  NoDup (Dict.keys m) → NoDup (Dict.keys (mempool_minus m ids)).
Proof.
  unfold Dict.keys, mempool_minus. induction m as [|[k tx] m IH]; [done |].
  rewrite fmap_cons, NoDup_cons. intros [Hk Hm]. rewrite filter_cons.
  destruct (decide _); [| by apply IH].
  rewrite fmap_cons, NoDup_cons. split; [| by apply IH].
  intros Hin. apply Hk. apply list_elem_of_fmap in Hin as (e & He & Hin).
  apply list_elem_of_filter in Hin as [_ Hin]. apply list_elem_of_fmap. eauto.
Qed.

Lemma mempool_valid_minus m ids : mempool_valid m → mempool_valid (mempool_minus m ids).
Proof.
  intros [Hnd Hall]. split; [by apply mempool_minus_keys_NoDup |].
  intros k tx Hin. by apply Hall, (mempool_minus_subseteq _ ids).
Qed.

Lemma filter_by_set_minus (m : list (string * TransactionType)) (ids : gset string) :
  filter (λ e, e.1 ∉ ids) m = mempool_minus m (elements ids).
Proof.
  unfold mempool_minus. apply list_filter_iff. intros e. by rewrite elem_of_elements.
Qed.

Lemma reachable_mempool_valid_aux self : reachable self → mempool_valid (mempool self).
Proof.
  induction 1 as [|tx self _ IH|fuel now miner self r self' Hreach IH Hm
                  |block self Hreach IH|new_chain self _ IH].
  - split; [constructor |]. intros k tx Hin. by apply elem_of_nil in Hin.
  - destruct (add_transaction_effect tx self)
      as [->|(tid & Htid & Hpass & Hreg & Hfresh & ->)]; [done |].
    simpl. destruct IH as [Hnd Hall]. split.
    + unfold Dict.keys. rewrite fmap_app. apply NoDup_app. split_and!; [done | | ].
      * intros k Hk ->%list_elem_of_singleton.
        apply dict_contains_keys in Hk. simpl in Hk. congruence.
      * apply NoDup_singleton.
    + intros k tx' [Hin|Hin%list_elem_of_singleton]%elem_of_app; [by apply Hall |].
      by simplify_eq.
  - destruct (mine_block_step _ _ _ _ _ _ Hreach Hm) as (tip & block & _ & _ & _ & _ & ->).
    split; [constructor |]. intros k tx Hin. by apply elem_of_nil in Hin.
  - destruct (validate_and_add_block_cases block self) as [->|[->|(r & ids & ->)]];
      [done | done |]. by apply mempool_valid_minus.
  - destruct (adoptable_dec new_chain self) as [Hyes|Hno].
    + rewrite (replace_chain_adopt _ _ Hyes).
      destruct (confirmed_ids new_chain ∅); simpl; [| done].
      rewrite filter_by_set_minus. by apply mempool_valid_minus.
    + by rewrite replace_chain_reject.
Qed.

(** X2. On every ledger that the operations can produce, no id is pending
    twice, and every pending transaction is regular, is filed under its own
    [tx_id] and passes the field checks of [add_transaction]: its amount is
    present and not [<= 0], and its [sender], [receiver] and [tx_id] are
    not empty. *)
Theorem reachable_mempool_valid self :
  reachable self →
  NoDup (Dict.keys (mempool self))
  ∧ ∀ k tx, Dict.get k (mempool self) = Some tx →
      tx_id tx = Some k ∧ type tx = Some "regular"
      ∧ (∃ amt, amount tx = Some amt ∧ PrimFloat.leb amt 0%float = false)
      ∧ falsy (sender tx) = false ∧ falsy (receiver tx) = false ∧ k ≠ "".
Proof.
  intros Hreach. destruct (reachable_mempool_valid_aux _ Hreach) as [Hnd Hall].
  split; [done |]. intros k tx Hget%dict_get_elem_of.
  destruct (Hall _ _ Hget) as ((Hamt & Hs & Hr & Hi & _) & Hid & Hreg).
  split_and!; try done. rewrite Hid in Hi. simpl in Hi. by apply str_eqb_neq in Hi.
Qed.

(** X3. The chain is append-only but for [replace_chain]: [add_transaction]
    leaves it as it is, [mine_block] and [validate_and_add_block] keep it
    as a prefix of the chain they leave (also when they raise), and
    [replace_chain] never leaves a shorter chain: it leaves the chain it
    found or a strictly longer one. *)
Theorem chain_never_shrinks :
  (∀ tx self, chain (add_transaction tx self).2 = chain self)
  ∧ (∀ fuel now miner self r self',
       mine_block fuel now miner self = Some (r, self') →
       chain self `prefix_of` chain self')
  ∧ (∀ block self, chain self `prefix_of` chain (validate_and_add_block block self).2)
  ∧ (∀ new_chain self,
       chain (replace_chain new_chain self).2 = chain self
       ∨ (length (chain self) < length (chain (replace_chain new_chain self).2))%nat).
Proof.
  split_and!.
  - apply add_transaction_chain.
  - intros fuel now miner self r self' Hm.
    apply mine_block_cases in Hm as [[_ ->]|(block & ids & -> & _)]; [done |].
    by apply prefix_app_r.
  - intros block self.
    destruct (validate_and_add_block_cases block self) as [->|[->|(r & ids & ->)]];
      simpl; [done | done | by apply prefix_app_r].
  - intros new_chain self. destruct (adoptable_dec new_chain self) as [Hyes|Hno].
    + right. rewrite (replace_chain_adopt _ _ Hyes). destruct Hyes as [_ Hlen].
      by destruct (confirmed_ids new_chain ∅).
    + left. by rewrite replace_chain_reject.
Qed.

(** ** Transactions that cannot be read *)

Lemma confirmed_ids_txs_unreadable txs acc :
  forallb tx_readable txs = false → ∃ key, confirmed_ids_txs txs acc = Raise (KeyError key).
Proof.
  revert acc. induction txs as [|t txs IH]; intros acc Hall; [done |].
  simpl in *. unfold tx_readable in Hall.
  destruct (type t) as [ty|]; [| eauto].
  destruct (str_eqb ty "regular"); [| by apply IH].
  destruct (tx_id t) as [tid|]; [| eauto].
  rewrite bool_decide_eq_true_2 in Hall by eauto. by apply IH.
Qed.

Lemma confirmed_ids_txs_readable txs acc :
  forallb tx_readable txs = true → ∃ ids, confirmed_ids_txs txs acc = Ok ids.
Proof.
  revert acc. induction txs as [|t txs IH]; intros acc Hall; [by exists acc |].
  simpl in *. apply andb_true_iff in Hall as [Ht Hall]. unfold tx_readable in Ht.
  destruct (type t) as [ty|]; [| done].
  destruct (str_eqb ty "regular"); [| by apply IH].
  destruct (tx_id t) as [tid|]; [by apply IH |].
  by apply bool_decide_eq_true in Ht as [? ?].
Qed.

Lemma confirmed_ids_unreadable c acc :
  forallb tx_readable (chain_txs c) = false →
  ∃ key, confirmed_ids c acc = Raise (KeyError key).
Proof.
  revert acc. induction c as [|b c IH]; intros acc; [done |].
  unfold chain_txs. simpl. rewrite forallb_app. intros Hall.
  destruct (forallb tx_readable (transactions b)) eqn:Eb.
  - simpl in Hall. destruct (confirmed_ids_txs_readable _ acc Eb) as [acc' ->].
    by apply IH.
  - destruct (confirmed_ids_txs_unreadable _ acc Eb) as [key ->]. eauto.
Qed.

Lemma missing_key_None txs :
  missing_key txs = None ↔ forallb tx_readable txs = true.
Proof.
  induction txs as [|t txs IH]; simpl; [done |].
  destruct (tx_readable t); simpl; [done |].
  destruct (type t); split; done.
Qed.

Lemma readable_prefix_all txs :
  forallb tx_readable txs = true → readable_prefix txs = txs.
Proof.
  induction txs as [|t txs IH]; simpl; [done |].
  intros [Ht Hall]%andb_true_iff. rewrite Ht. f_equal. by apply IH.
Qed.

Lemma remove_confirmed_exact txs self :
  _remove_confirmed_from_mempool txs self
  = (match missing_key txs with
     | None => Ok ()
     | Some key => Raise (KeyError key)
     end,
     mkBlockchain (chain self)
       (mempool_minus (mempool self) (regular_ids (readable_prefix txs)))).
Proof.
  assert (∀ s, s = mkBlockchain (chain s) (mempool_minus (mempool s) [])) as Hsame.
  { intros s. rewrite mempool_minus_nil. by destruct s. }
  revert self. induction txs as [|t txs IH]; intros self.
  - unfold _remove_confirmed_from_mempool. simpl. unfold ret. by rewrite <- Hsame.
  - rewrite remove_confirmed_cons. simpl. unfold tx_readable.
    destruct (type t) as [ty|] eqn:Ety; [| simpl; by rewrite <- Hsame].
    unfold str_eqb. destruct (decide (ty = "regular")) as [->|Hne].
    + rewrite bool_decide_eq_true_2 by done.
      destruct (tx_id t) as [tid|] eqn:Etid.
      * rewrite bool_decide_eq_true_2 by eauto. rewrite IH. simpl.
        unfold regular_ids, is_regular. simpl. rewrite Ety, Etid.
        rewrite bool_decide_eq_true_2 by done.
        by rewrite pop_mempool_minus, mempool_minus_app.
      * rewrite bool_decide_eq_false_2 by (by intros [? ?]). simpl. by rewrite <- Hsame.
    + rewrite bool_decide_eq_false_2 by done. rewrite IH.
      unfold regular_ids, is_regular. simpl. rewrite Ety.
      by rewrite bool_decide_eq_false_2 by congruence.
Qed.

Lemma validate_and_add_block_extends block self tip :
  last (chain self) = Some tip → extends_tip tip block →
  validate_and_add_block block self
  = (match missing_key (transactions block) with
     | None => Ok true
     | Some key => Raise (KeyError key)
     end,
     mkBlockchain (chain self ++ [block])
       (mempool_minus (mempool self)
          (regular_ids (readable_prefix (transactions block))))).
Proof.
  intros Htip Hyes. rewrite (validate_and_add_block_accept _ _ _ Htip Hyes).
  unfold bind. rewrite remove_confirmed_exact. simpl.
  by destruct (missing_key (transactions block)).
Qed.

(** C3, as the code has it.  On a ledger with a tip, [validate_and_add_block]
    returns [True] exactly when the block names the hash of the tip, its own
    hash starts with ["0000"], and every transaction of the block can be
    read (it has its ["type"] entry, and its ["tx_id"] entry when the type
    is ["regular"]); it then has appended the block and removed the ids of
    the block's regular transactions from the mempool.  It returns [False]
    exactly when one of the two tests on the block fails, and the ledger is
    then the one it started from.  In the one case left, a block that
    passes both tests and holds a transaction that cannot be read, it
    raises [KeyError] on the entry that is missing: the block has been
    appended, and the ids of the regular transactions read before have
    left the mempool.  It raises nothing else. *)
Theorem validate_and_add_block_spec block self tip :
  last (chain self) = Some tip →
  ((validate_and_add_block block self).1 = Ok true
   ↔ extends_tip tip block ∧ missing_key (transactions block) = None)
  ∧ ((validate_and_add_block block self).1 = Ok true →
       (validate_and_add_block block self).2
       = mkBlockchain (chain self ++ [block])
           (mempool_minus (mempool self) (regular_ids (transactions block))))
  ∧ ((validate_and_add_block block self).1 = Ok false ↔ ¬ extends_tip tip block)
  ∧ ((validate_and_add_block block self).1 = Ok false →
       (validate_and_add_block block self).2 = self)
  ∧ (∀ e, (validate_and_add_block block self).1 = Raise e
          ↔ extends_tip tip block
            ∧ ∃ key, missing_key (transactions block) = Some key ∧ e = KeyError key)
  ∧ (∀ e, (validate_and_add_block block self).1 = Raise e →
       (validate_and_add_block block self).2
       = mkBlockchain (chain self ++ [block])
           (mempool_minus (mempool self)
              (regular_ids (readable_prefix (transactions block))))).
Proof.
  intros Htip.
  destruct (extends_tip_dec tip block) as [Hyes|Hno].
  - rewrite (validate_and_add_block_extends _ _ _ Htip Hyes).
    destruct (missing_key (transactions block)) as [key|] eqn:Ekey; simpl.
    + split_and!; try done.
      * split; [done | by intros [_ ?]].
      * intros e. split; [intros [= <-]; eauto | by intros (_ & ? & [= <-] & ->)].
    + apply missing_key_None in Ekey. rewrite (readable_prefix_all _ Ekey).
      split_and!; try done.
      intros e. split; [done | by intros (_ & ? & ? & _)].
  - rewrite (validate_and_add_block_reject _ _ _ Htip Hno). simpl.
    split_and!; try done.
    + split; [done | by intros [? _]].
    + intros e. split; [done | by intros [? _]].
Qed.

(** X4. A block that names the hash of the tip and carries the proof of
    work, but holds a transaction without its ["type"] entry (or a regular
    one without its ["tx_id"]), makes [validate_and_add_block] raise
    [KeyError] on that entry after the block has been appended: the chain
    keeps the block, and the mempool has lost the ids of the regular
    transactions that come before the faulty one in the block, and no
    other.  The listener swallows the exception and sends nothing, no
    [REQ_CHAIN] either. *)
Theorem validate_and_add_block_unreadable block self tip :
  last (chain self) = Some tip →
  extends_tip tip block →
  forallb tx_readable (transactions block) = false →
  ∃ key,
    missing_key (transactions block) = Some key
    ∧ validate_and_add_block block self
      = (Raise (KeyError key),
         mkBlockchain (chain self ++ [block])
           (mempool_minus (mempool self)
              (regular_ids (readable_prefix (transactions block)))))
    ∧ (∀ k tx, (k, tx) ∈ mempool (validate_and_add_block block self).2
               ↔ (k, tx) ∈ mempool self
                 ∧ k ∉ regular_ids (readable_prefix (transactions block)))
    ∧ ∀ node addr, blockchain node = self →
        listen_step node addr (new_block block)
        = (with_blockchain node
             (mkBlockchain (chain self ++ [block])
                (mempool_minus (mempool self)
                   (regular_ids (readable_prefix (transactions block))))), []).
Proof.
  intros Htip Hyes Hbad.
  pose proof (validate_and_add_block_extends _ _ _ Htip Hyes) as Hv.
  destruct (missing_key (transactions block)) as [key|] eqn:Ekey.
  - exists key. split_and!; [done | done | |].
    + intros k tx. rewrite Hv. simpl. unfold mempool_minus.
      rewrite list_elem_of_filter. simpl. tauto.
    + intros node addr Hbc. simpl. by rewrite Hbc, Hv.
  - apply missing_key_None in Ekey. congruence.
Qed.

(** X5. A candidate that is valid and strictly longer, but holds a
    transaction without its ["type"] entry (or a regular one without its
    ["tx_id"]), makes [replace_chain] raise [KeyError] after the chain has
    been replaced: the candidate is the chain and the mempool is the prior
    one, with the entries that the candidate confirms still pending. *)
Theorem replace_chain_unreadable new_chain self :
  adoptable new_chain self →
  forallb tx_readable (chain_txs new_chain) = false →
  ∃ key, replace_chain new_chain self
         = (Raise (KeyError key), mkBlockchain new_chain (mempool self)).
Proof.
  intros Hyes Hbad. rewrite (replace_chain_adopt _ _ Hyes).
  destruct (confirmed_ids_unreadable _ ∅ Hbad) as [key ->]. eauto.
Qed.

(** ** Mining and the other nodes *)

Lemma regular_ids_values m : mempool_ok m → regular_ids (Dict.values m) = Dict.keys m.
Proof.
  unfold regular_ids, Dict.values, Dict.keys.
  induction m as [|[k tx] m IH]; intros Hok; [done |]. simpl.
  destruct (Hok k tx) as [Hid Hreg]; [left |].
  unfold is_regular. rewrite bool_decide_eq_true_2 by done. rewrite Hid. f_equal.
  apply IH. intros k' tx' Hin. apply Hok. by right.
Qed.

Lemma validate_mined_block fuel now miner self block self' other tip :
  last (chain self) = Some tip →
  mempool_ok (mempool self) →
  mine_block fuel now miner self = Some (Ok block, self') →
  last (chain other) = Some tip →
  validate_and_add_block block other
  = (Ok true, mkBlockchain (chain other ++ [block])
                (mempool_minus (mempool other) (Dict.keys (mempool self)))).
Proof.
  intros Htip Hok Hm Hother.
  destruct (mine_block_returns _ _ _ _ _ _ _ Htip Hok Hm) as (k & [= ->] & Hpow & _).
  rewrite (validate_and_add_block_accept _ _ tip); [| done | by split].
  unfold bind. rewrite remove_confirmed_typed.
  - simpl. unfold regular_ids at 1. simpl. fold (regular_ids (Dict.values (mempool self))).
    by rewrite regular_ids_values.
  - simpl. constructor; [apply coinbase_tx_typed | by apply mempool_ok_values_typed].
Qed.

(** X6. A block that [mine_block] returns on one ledger is accepted by
    [validate_and_add_block] on every ledger that has the same tip: it is
    appended there, and the ids that were pending at the miner leave the
    mempool of that ledger.  A ledger with another tip refuses it and is
    left as it was. *)
Theorem mined_block_accepted fuel now miner self block self' other tip tip' :
  last (chain self) = Some tip →
  mempool_ok (mempool self) →
  mine_block fuel now miner self = Some (Ok block, self') →
  last (chain other) = Some tip' →
  (tip' = tip →
     validate_and_add_block block other
     = (Ok true, mkBlockchain (chain other ++ [block])
                   (mempool_minus (mempool other) (Dict.keys (mempool self)))))
  ∧ (_hash_dict tip' ≠ _hash_dict tip →
     validate_and_add_block block other = (Ok false, other)).
Proof.
  intros Htip Hok Hm Hother. split.
  - intros ->. by eapply validate_mined_block.
  - intros Hne. apply (validate_and_add_block_reject _ _ tip'); [done |].
    destruct (mine_block_returns _ _ _ _ _ _ _ Htip Hok Hm) as (k & [= ->] & _ & _).
    intros [Hprev _]. simpl in Hprev. unfold hash_block in *. congruence.
Qed.

(** X7. The block that [mine_block] returns is the block that it built
    (index one past the chain, the hash of the tip, the coinbase and then
    the pending transactions) with the least nonce from 1 on whose hash
    starts with ["0000"]. *)
Theorem mine_block_least_nonce fuel now miner self tip block self' :
  last (chain self) = Some tip →
  mine_block fuel now miner self = Some (Ok block, self') →
  block = set_nonce (candidate_block self tip now miner) (nonce block)
  ∧ 1 ≤ nonce block
  ∧ pow_ok block = true
  ∧ ∀ n, 1 ≤ n < nonce block →
      pow_ok (set_nonce (candidate_block self tip now miner) n) = false.
Proof.
  intros Htip Hm. rewrite (mine_block_unfold _ _ _ _ _ Htip) in Hm.
  destruct (nonce_search fuel _) as [b|] eqn:E; [| done].
  apply nonce_search_first in E as (Hle & Heq & Hpow & Hfirst).
  assert (block = b) as ->.
  { unfold bind in Hm.
    destruct (remove_confirmed_any (transactions b)
                (mkBlockchain (chain self ++ [b]) (mempool self))) as (r0 & ids & Hrem).
    rewrite Hrem in Hm. unfold ret in Hm. destruct r0; by simplify_eq. }
  done.
Qed.

(** X8. [add_transaction] never reads the chain: a transaction that was
    pending and has been confirmed by [mine_block] is accepted again when
    it is submitted again, and is pending once more. *)
Theorem confirmed_transaction_replay fuel now miner self r self' tid tx :
  reachable self →
  Dict.get tid (mempool self) = Some tx →
  mine_block fuel now miner self = Some (r, self') →
  ∃ block, r = Ok block
           ∧ tx ∈ transactions block
           ∧ chain self' = chain self ++ [block]
           ∧ add_transaction tx self'
             = (Ok (true, tx), mkBlockchain (chain self') [(tid, tx)]).
Proof.
  intros Hreach Hget Hm. pose proof (dict_get_elem_of _ _ _ Hget) as Hin.
  destruct (reachable_mempool_valid_aux _ Hreach) as [_ Hall].
  destruct (Hall _ _ Hin) as (Hpass & Hid & Hreg).
  destruct (reachable_inv _ Hreach) as [Hne Hok].
  destruct (last_is_Some _ Hne) as [tip Htip].
  destruct (mine_block_returns _ _ _ _ _ _ _ Htip Hok Hm) as (k & -> & _ & ->).
  eexists. split_and!; [done | | done |].
  - simpl. right. unfold Dict.values. apply list_elem_of_fmap. by exists (tid, tx).
  - rewrite (add_transaction_fields_pass _ _ _ Hpass Hid). simpl.
    rewrite bool_decide_eq_false_2; [done | congruence].
Qed.

(** ** The node: synchronisation, peers, commands *)

Lemma with_blockchain_same (self : Node) : with_blockchain self (blockchain self) = self.
Proof. by destruct self. Qed.

Lemma broadcast_all (self : Node) msg :
  _broadcast self msg None = (λ peer, (msg, peer)) <$> peers self.
Proof.
  unfold _broadcast. f_equal. induction (peers self) as [|p ps IH]; [done |].
  rewrite filter_cons_True by done. by rewrite IH.
Qed.

(** X10. Synchronisation.  A node answers [REQ_CHAIN] with one [FULL_CHAIN]
    datagram that carries its chain, to the asker, and is unchanged.  When
    that chain comes from a ledger that the operations can produce, the
    node that receives it adopts it if it is strictly longer than its own
    chain, and is left as it was otherwise; it sends nothing either way. *)
Theorem sync_adopts_longer (asker responder : Node) (asker_addr responder_addr : Peer) :
  reachable (blockchain responder) →
  listen_step responder asker_addr REQ_CHAIN
  = (responder, [(FULL_CHAIN (chain (blockchain responder)), asker_addr)])
  ∧ (listen_step asker responder_addr (FULL_CHAIN (chain (blockchain responder)))).2 = []
  ∧ ((length (chain (blockchain asker)) < length (chain (blockchain responder)))%nat →
       chain (blockchain (listen_step asker responder_addr
                            (FULL_CHAIN (chain (blockchain responder)))).1)
       = chain (blockchain responder))
  ∧ ((length (chain (blockchain responder)) ≤ length (chain (blockchain asker)))%nat →
       (listen_step asker responder_addr (FULL_CHAIN (chain (blockchain responder)))).1
       = asker).
Proof.
  intros Hreach. pose proof (reachable_chain_valid_aux _ Hreach) as Hv.
  split_and!.
  - done.
  - simpl. by destruct (replace_chain _ _).
  - intros Hlen. simpl.
    assert (adoptable (chain (blockchain responder)) (blockchain asker)) as Hyes by done.
    rewrite (replace_chain_adopt _ _ Hyes).
    by destruct (confirmed_ids (chain (blockchain responder)) ∅).
  - intros Hlen. simpl. rewrite replace_chain_reject.
    + simpl. apply with_blockchain_same.
    + intros [_ ?]. lia.
Qed.

(** X11. The [PEERS] datagram.  The peers known before stay, in place; an
    address is a peer afterwards exactly when it was one before or is
    listed and is not the node's own [("127.0.0.1", port)]; ledger, seen
    set, port and address are untouched.  One [REQ_CHAIN] goes to the first
    peer when the datagram brought a new peer, and nothing is sent
    otherwise; the same datagram a second time changes nothing and sends
    nothing.  When no peer is known twice and the datagram lists no
    address twice, no peer is known twice afterwards. *)
Theorem listen_peers_spec (self : Node) (peer_addresses : list Peer) :
  peers self `prefix_of` peers (listen_peers self peer_addresses).1
  ∧ (∀ peer, peer ∈ peers (listen_peers self peer_addresses).1
             ↔ peer ∈ peers self
               ∨ (peer ∈ peer_addresses ∧ peer ≠ ("127.0.0.1", port self)))
  ∧ (listen_peers self peer_addresses).1
    = with_peers self (peers (listen_peers self peer_addresses).1)
  ∧ (listen_peers self peer_addresses).2
    = (if decide (peers (listen_peers self peer_addresses).1 = peers self) then []
       else match peers (listen_peers self peer_addresses).1 with
            | [] => []
            | first :: _ => [(REQ_CHAIN, first)]
            end)
  ∧ listen_peers (listen_peers self peer_addresses).1 peer_addresses
    = ((listen_peers self peer_addresses).1, [])
  ∧ (NoDup (peers self) → NoDup peer_addresses →
     NoDup (peers (listen_peers self peer_addresses).1)).
Proof.
  unfold listen_peers.
  destruct (filter _ peer_addresses) as [|p new] eqn:Enew; simpl.
  - split_and!; [| | | | | done].
    + done.
    + intros peer. split; [by left |]. intros [?|[Hin Hne]]; [done |].
      destruct (decide (peer ∈ peers self)) as [?|Hnot]; [done |].
      assert (peer ∈ filter (λ peer, peer ≠ ("127.0.0.1", port self) ∧ peer ∉ peers self)
                       peer_addresses) as Hf by (by apply list_elem_of_filter).
      rewrite Enew in Hf. by apply elem_of_nil in Hf.
    + by destruct self.
    + by rewrite decide_True.
    + by rewrite Enew.
  - assert (∀ peer, peer ∈ p :: new
                    ↔ (peer ≠ ("127.0.0.1", port self) ∧ peer ∉ peers self)
                      ∧ peer ∈ peer_addresses) as Hnew.
    { intros peer. rewrite <- Enew.
      apply (list_elem_of_filter
               (λ peer, peer ≠ ("127.0.0.1", port self) ∧ peer ∉ peers self)). }
    split_and!.
    + by apply prefix_app_r.
    + intros peer. rewrite elem_of_app, Hnew.
      destruct (decide (peer ∈ peers self)); naive_solver.
    + done.
    + rewrite decide_False.
      * unfold _startup_sync. simpl. by destruct (peers self).
      * intros Heq. apply (f_equal length) in Heq. rewrite length_app in Heq.
        simpl in Heq. lia.
    + assert (filter (λ peer, peer ≠ ("127.0.0.1", port self)
                              ∧ peer ∉ peers self ++ p :: new) peer_addresses = []) as ->.
      { apply filter_none. intros peer Hin [Hne Hnot]. apply Hnot.
        rewrite elem_of_app. destruct (decide (peer ∈ peers self)); [by left | right].
        by apply Hnew. }
      done.
    + intros Hnd Hnd'. apply NoDup_app. split_and!; [done | |].
      * intros peer Hin Hin'. apply Hnew in Hin'. tauto.
      * rewrite <- Enew. by apply NoDup_filter.
Qed.

Lemma listen_step_sends self addr tx ttl0 payload peer :
  (payload, peer) ∈ (listen_step self addr (new_transaction tx ttl0)).2 →
  payload = new_transaction tx (Some (default 4 ttl0 - 1))
  ∧ 0 < default 4 ttl0 ∧ peer ≠ addr ∧ peer ∈ peers self.
Proof.
  destruct (tx_id tx) as [tid|] eqn:Htid;
    [| rewrite listen_step_dropped by (left; by rewrite Htid); by intros ?%elem_of_nil].
  destruct (decide (tid = "")) as [->|Hne];
    [rewrite listen_step_dropped by (left; by rewrite Htid); by intros ?%elem_of_nil |].
  destruct (decide (tid ∈ seen_tx_ids self)) as [Hseen|Hfresh];
    [rewrite listen_step_dropped by (right; eauto); by intros ?%elem_of_nil |].
  rewrite (listen_step_fresh _ _ _ _ _ Htid Hne Hfresh). simpl.
  destruct (0 <? default 4 ttl0) eqn:Ettl; [| by intros ?%elem_of_nil].
  apply Z.ltb_lt in Ettl.
  intros (p & [= -> ->] & [Hp Hin]%list_elem_of_filter)%list_elem_of_fmap. done.
Qed.

(** X12. Gossip is bounded by [ttl].  Every datagram that the listener
    sends in answer to a [new_transaction] datagram carries the same
    transaction with [ttl - 1], which is not negative, and goes to a peer
    other than the sender.  So a datagram that starts with [ttl = t] is
    passed on through at most [t] further nodes, whatever the nodes are. *)
Theorem gossip_bounded_by_ttl self addr tx ttl0 hops :
  relay_chain ((self, addr, new_transaction tx ttl0) :: hops) →
  (length hops ≤ Z.to_nat (default 4%Z ttl0))%nat
  ∧ Forall (λ hop, ∃ ttl, hop.2 = new_transaction tx (Some ttl)
                          ∧ 0 ≤ ttl < default 4 ttl0) hops
  ∧ ∀ payload peer, (payload, peer) ∈ (listen_step self addr (new_transaction tx ttl0)).2 →
      peer ≠ addr ∧ peer ∈ peers self.
Proof.
  intros Hchain. split_and!.
  - revert self addr ttl0 Hchain.
    induction hops as [|[[self' addr'] payload'] hops IH]; intros self addr ttl0; simpl;
      [lia |].
    intros [(peer & Hsend) Hrest].
    apply listen_step_sends in Hsend as (-> & Hpos & _ & _).
    apply IH in Hrest. simpl in Hrest. lia.
  - revert self addr ttl0 Hchain.
    induction hops as [|[[self' addr'] payload'] hops IH]; intros self addr ttl0; simpl;
      [constructor |].
    intros [(peer & Hsend) Hrest].
    apply listen_step_sends in Hsend as (-> & Hpos & _ & _).
    constructor.
    + exists (default 4 ttl0 - 1). simpl. split; [done | lia].
    + apply IH in Hrest. simpl in Hrest. eapply Forall_impl; [apply Hrest |].
      intros hop (ttl & ? & ?). exists ttl. split; [done | lia].
  - intros payload peer Hsend. by apply listen_step_sends in Hsend as (_ & _ & ? & ?).
Qed.

Lemma repl_tx_accepted (tid receiver : string) (amt : float) (self : Node) :
  PrimFloat.leb amt 0%float = false → address self ≠ "" → receiver ≠ "" → tid ≠ "" →
  Dict.contains tid (mempool (blockchain self)) = false →
  fields_pass (mkTransaction (Some tid) (Some (address self)) (Some receiver)
                 (Some amt) (Some "regular"))
  ∧ repl_tx tid receiver amt self
    = (mkNode (mkBlockchain (chain (blockchain self))
                 (mempool (blockchain self)
                  ++ [(tid, mkTransaction (Some tid) (Some (address self)) (Some receiver)
                              (Some amt) (Some "regular"))]))
              (port self) (address self) (peers self) ({[tid]} ∪ seen_tx_ids self),
       (λ peer, (new_transaction
                   (mkTransaction (Some tid) (Some (address self)) (Some receiver)
                      (Some amt) (Some "regular")) (Some 4), peer)) <$> peers self).
Proof.
  intros Hamt Haddr Hrecv Htid Hfresh.
  set (tx := mkTransaction (Some tid) (Some (address self)) (Some receiver)
               (Some amt) (Some "regular")).
  assert (fields_pass tx) as Hpass.
  { split; [by exists amt |]. simpl.
    split_and!; [by apply str_eqb_neq.. | by left]. }
  split; [done |]. unfold repl_tx. fold tx.
  rewrite (add_transaction_fields_pass tx _ tid Hpass eq_refl).
  destruct (Dict.get tid (mempool (blockchain self))) eqn:Eget.
  - assert (Dict.contains tid (mempool (blockchain self)) = true)
      by (apply dict_contains_get; eauto). congruence.
  - simpl. by rewrite broadcast_all.
Qed.

(** X13. The [TX] command.  When the amount is not [<= 0], the node's
    address, the receiver and the id are not empty and the id is not
    pending, the transaction is appended to the mempool, its id is marked
    seen, and one datagram with [ttl = 4] goes to every peer; a copy of it
    that comes back from a peer is dropped.  Otherwise the node is left as
    it was: nothing is sent and the id is not marked seen. *)
Theorem repl_tx_spec (tid receiver : string) (amt : float) (self : Node) :
  (PrimFloat.leb amt 0%float = false → address self ≠ "" → receiver ≠ "" → tid ≠ "" →
   Dict.contains tid (mempool (blockchain self)) = false →
   repl_tx tid receiver amt self
   = (mkNode (mkBlockchain (chain (blockchain self))
                (mempool (blockchain self)
                 ++ [(tid, mkTransaction (Some tid) (Some (address self)) (Some receiver)
                             (Some amt) (Some "regular"))]))
             (port self) (address self) (peers self) ({[tid]} ∪ seen_tx_ids self),
      (λ peer, (new_transaction
                  (mkTransaction (Some tid) (Some (address self)) (Some receiver)
                     (Some amt) (Some "regular")) (Some 4), peer)) <$> peers self)
   ∧ ∀ addr tx' ttl', tx_id tx' = Some tid →
       listen_step (repl_tx tid receiver amt self).1 addr (new_transaction tx' ttl')
       = ((repl_tx tid receiver amt self).1, []))
  ∧ ((PrimFloat.leb amt 0%float = true ∨ address self = "" ∨ receiver = "" ∨ tid = ""
      ∨ Dict.contains tid (mempool (blockchain self)) = true) →
     repl_tx tid receiver amt self = (self, [])).
Proof.
  set (tx := mkTransaction (Some tid) (Some (address self)) (Some receiver)
               (Some amt) (Some "regular")).
  split.
  - intros Hamt Haddr Hrecv Htid Hfresh.
    assert (fields_pass tx) as Hpass.
    { split; [by exists amt |]. simpl.
      split_and!; [by apply str_eqb_neq.. | by left]. }
    assert (repl_tx tid receiver amt self
            = (mkNode (mkBlockchain (chain (blockchain self))
                         (mempool (blockchain self) ++ [(tid, tx)]))
                      (port self) (address self) (peers self) ({[tid]} ∪ seen_tx_ids self),
               (λ peer, (new_transaction tx (Some 4), peer)) <$> peers self)) as Heq.
    { unfold repl_tx. fold tx.
      rewrite (add_transaction_fields_pass tx _ tid Hpass eq_refl).
      destruct (Dict.get tid (mempool (blockchain self))) eqn:Eget.
      - assert (Dict.contains tid (mempool (blockchain self)) = true)
          by (apply dict_contains_get; eauto). congruence.
      - simpl. by rewrite broadcast_all. }
    split; [done |]. intros addr tx' ttl' Hid. rewrite Heq. simpl fst.
    apply listen_step_dropped. right. exists tid. split; [done |]. simpl. set_solver.
  - intros Hbad. unfold repl_tx. fold tx.
    destruct (fields_pass_dec tx) as [Hpass|Hno].
    + rewrite (add_transaction_fields_pass tx _ tid Hpass eq_refl).
      destruct Hpass as ((a & [= <-] & Hle) & Hs & Hr & Hi & _). simpl in *.
      apply str_eqb_neq in Hs, Hr, Hi.
      destruct Hbad as [?|[?|[?|[?|Hc]]]]; [congruence | done | done | done |].
      apply dict_contains_get in Hc as [stored ->]. simpl. apply f_equal2; [| done].
      apply with_blockchain_same.
    + rewrite add_transaction_fields_fail by done. simpl. apply f_equal2; [| done].
      apply with_blockchain_same.
Qed.

(** X14. The [MINE] command keeps nodes together.  On a node whose ledger
    the operations can produce, a [MINE] that returns leaves the mined
    block at the end of the chain, an empty mempool, and one [new_block]
    datagram for every peer.  A node that holds the same chain and hears
    this datagram holds the miner's new chain afterwards, has dropped the
    ids that were pending at the miner, and sends nothing. *)
Theorem repl_mine_keeps_sync fuel now (self : Node) r self' out :
  reachable (blockchain self) →
  repl_mine fuel now self = Some (r, self', out) →
  ∃ block, r = Ok block
    ∧ blockchain self' = mkBlockchain (chain (blockchain self) ++ [block]) []
    ∧ out = (λ peer, (new_block block, peer)) <$> peers self
    ∧ ∀ (other : Node) addr, chain (blockchain other) = chain (blockchain self) →
        listen_step other addr (new_block block)
        = (with_blockchain other
             (mkBlockchain (chain (blockchain self'))
                (mempool_minus (mempool (blockchain other))
                   (Dict.keys (mempool (blockchain self))))), []).
Proof.
  intros Hreach Hm. unfold repl_mine in Hm.
  destruct (mine_block fuel now (address self) (blockchain self)) as [[r0 bc]|] eqn:E; [| done].
  destruct (reachable_inv _ Hreach) as [Hne Hok].
  destruct (last_is_Some _ Hne) as [tip Htip].
  destruct (mine_block_step _ _ _ _ _ _ Hreach E) as (tip' & block & _ & -> & _ & _ & ->).
  simplify_eq. exists block. split_and!; [done | done | by rewrite broadcast_all |].
  intros other addr Hsame. simpl.
  rewrite (validate_mined_block _ _ _ _ _ _ (blockchain other) tip Htip Hok E)
    by (by rewrite Hsame).
  by rewrite Hsame.
Qed.

(** X15. What a JSON datagram never does: it never changes the peers, the
    port or the address of the node, never removes an id from the seen
    set, and never shortens the chain. *)
Theorem listen_step_frame (self : Node) (addr : Peer) (payload : Message) :
  peers (listen_step self addr payload).1 = peers self
  ∧ port (listen_step self addr payload).1 = port self
  ∧ address (listen_step self addr payload).1 = address self
  ∧ seen_tx_ids self ⊆ seen_tx_ids (listen_step self addr payload).1
  ∧ (length (chain (blockchain self))
     ≤ length (chain (blockchain (listen_step self addr payload).1)))%nat.
Proof.
  split_and!; [| | | apply listen_step_seen |].
  1-3: destruct payload as [tx ttl0|block| |remote]; simpl;
    [ destruct (tx_id tx) as [tid|]; [| done];
      destruct (str_eqb tid "" || bool_decide (tid ∈ seen_tx_ids self)); [done |];
      destruct (add_transaction tx _) as [[?|?] bc]; [| done];
      by destruct (0 <? default 4 ttl0)
    | by destruct (validate_and_add_block block _) as [[[|]|?] bc]
    | done
    | by destruct (replace_chain remote _) ].
  destruct payload as [tx ttl0|block| |remote]; simpl.
  - destruct (tx_id tx) as [tid|]; [| done].
    destruct (str_eqb tid "" || bool_decide (tid ∈ seen_tx_ids self)); [done |].
    pose proof (add_transaction_chain tx (blockchain self)) as Hc.
    destruct (add_transaction tx _) as [[?|?] bc]; simpl in *.
    + destruct (0 <? default 4 ttl0); simpl; by rewrite Hc.
    + by rewrite Hc.
  - destruct (validate_and_add_block_cases block (blockchain self))
      as [H|[H|(r & ids & H)]]; rewrite H; simpl; [done | done |].
    destruct r as [[|]|?]; simpl; rewrite length_app; lia.
  - done.
  - destruct (adoptable_dec remote (blockchain self)) as [Hyes|Hno].
    + rewrite (replace_chain_adopt _ _ Hyes). destruct Hyes as [_ Hlen].
      destruct (confirmed_ids remote ∅); simpl; lia.
    + by rewrite replace_chain_reject.
Qed.

(** ** Edge cases and repeated deliveries *)

(** X16. A ledger whose chain is empty: [get_latest_block] raises
    [IndexError], so [validate_and_add_block] and [mine_block] raise it
    too and leave the ledger as it was (no search is run);
    [is_chain_valid()] answers [False]; and [replace_chain] adopts every
    valid chain. *)
Theorem empty_chain_edge (self : Blockchain) :
  chain self = [] →
  (∀ block, validate_and_add_block block self = (Raise IndexError, self))
  ∧ (∀ fuel now miner, mine_block fuel now miner self = Some (Raise IndexError, self))
  ∧ is_chain_valid None self = false
  ∧ is_chain_valid (Some []) self = false
  ∧ (∀ new_chain, chain_valid new_chain →
       chain (replace_chain new_chain self).2 = new_chain).
Proof.
  intros Hempty. split_and!.
  - intros block. unfold validate_and_add_block.
    by rewrite (bind_raise _ _ _ _ _ (get_latest_block_empty _ Hempty)).
  - intros fuel now miner. unfold mine_block.
    by rewrite (get_latest_block_empty _ Hempty).
  - unfold is_chain_valid. simpl. by rewrite Hempty.
  - unfold is_chain_valid. simpl. by rewrite Hempty.
  - intros new_chain Hv.
    assert (adoptable new_chain self) as Hyes.
    { split; [done |]. rewrite Hempty. destruct Hv as [Hne _].
      destruct new_chain; [done | simpl; lia]. }
    rewrite (replace_chain_adopt _ _ Hyes). by destruct (confirmed_ids new_chain ∅).
Qed.

(** X17. The longest-chain rule ignores ties, and [replace_chain] is
    idempotent: a candidate that is not longer than the chain is refused
    and the ledger is left as it was, however valid it is; so offering the
    same candidate a second time always returns [False] and changes
    nothing, whatever the first call did. *)
Theorem replace_chain_twice new_chain self :
  ((length new_chain ≤ length (chain self))%nat →
     replace_chain new_chain self = (Ok false, self))
  ∧ replace_chain new_chain (replace_chain new_chain self).2
    = (Ok false, (replace_chain new_chain self).2).
Proof.
  split.
  - intros Hlen. apply replace_chain_reject. intros [_ ?]. lia.
  - destruct (adoptable_dec new_chain self) as [Hyes|Hno].
    + apply replace_chain_reject. rewrite (replace_chain_adopt _ _ Hyes).
      intros [_ Hlen]. destruct (confirmed_ids new_chain ∅); simpl in Hlen; lia.
    + rewrite (replace_chain_reject _ _ Hno). simpl. by apply replace_chain_reject.
Qed.

(** X18. A block that is delivered twice.  The first delivery of a block
    that passes both tests appends it; unless the block and the former tip
    have the same hash, the second delivery is refused, the node is left as
    it was after the first, and a [REQ_CHAIN] goes to the sender: a
    duplicate datagram costs a full synchronisation. *)
Theorem new_block_delivered_twice self addr addr' block tip :
  last (chain (blockchain self)) = Some tip →
  block_typed block →
  extends_tip tip block →
  _hash_dict block ≠ _hash_dict tip →
  chain (blockchain (listen_step self addr (new_block block)).1)
  = chain (blockchain self) ++ [block]
  ∧ listen_step (listen_step self addr (new_block block)).1 addr' (new_block block)
    = ((listen_step self addr (new_block block)).1, [(REQ_CHAIN, addr')]).
Proof.
  intros Htip Hty Hyes Hne.
  rewrite (listen_new_block_step _ addr _ _ Htip Hty). rewrite decide_True by done. simpl fst.
  split; [done |].
  rewrite (listen_new_block_step _ _ _ block); [| by simpl; rewrite last_snoc | done].
  rewrite decide_False; [done |].
  intros [Hprev _]. destruct Hyes as [Hprev' _]. unfold hash_block in *. congruence.
Qed.

(** ** A transaction from the prompt of one node to the chain of its peer *)

Lemma dict_contains_minus (m : list (string * TransactionType)) ids k :
  k ∈ ids → Dict.contains k (mempool_minus m ids) = false.
Proof.
  intros Hin. destruct (Dict.contains k (mempool_minus m ids)) eqn:E; [| done].
  apply dict_contains_keys in E. unfold Dict.keys in E.
  apply list_elem_of_fmap in E as ([k' tx] & -> & [Hnot _]%list_elem_of_filter). done.
Qed.

(** X19. End to end.  Two nodes hold the same chain.  At the first, the
    [TX] command accepts a transaction; its datagram makes the transaction
    pending at the second node; the first node then mines, and its
    [new_block] datagram is heard by the second.  Afterwards both nodes
    hold the same chain, whose last block holds the transaction, and the
    transaction is pending at neither. *)
Theorem transaction_confirmed_at_peer (first second : Node) (first_addr : Peer)
    (tid receiver : string) (amt : float) fuel now r first' out :
  reachable (blockchain first) →
  chain (blockchain second) = chain (blockchain first) →
  PrimFloat.leb amt 0%float = false → address first ≠ "" → receiver ≠ "" → tid ≠ "" →
  Dict.contains tid (mempool (blockchain first)) = false →
  Dict.contains tid (mempool (blockchain second)) = false →
  tid ∉ seen_tx_ids second →
  repl_mine fuel now (repl_tx tid receiver amt first).1 = Some (r, first', out) →
  ∃ block,
    r = Ok block
    ∧ mkTransaction (Some tid) (Some (address first)) (Some receiver) (Some amt)
        (Some "regular") ∈ transactions block
    ∧ mempool (blockchain
                 (listen_step second first_addr
                    (new_transaction
                       (mkTransaction (Some tid) (Some (address first)) (Some receiver)
                          (Some amt) (Some "regular")) (Some 4))).1)
      = mempool (blockchain second)
        ++ [(tid, mkTransaction (Some tid) (Some (address first)) (Some receiver)
                    (Some amt) (Some "regular"))]
    ∧ chain (blockchain first') = chain (blockchain first) ++ [block]
    ∧ mempool (blockchain first') = []
    ∧ chain (blockchain
               (listen_step
                  (listen_step second first_addr
                     (new_transaction
                        (mkTransaction (Some tid) (Some (address first)) (Some receiver)
                           (Some amt) (Some "regular")) (Some 4))).1
                  first_addr (new_block block)).1)
      = chain (blockchain first')
    ∧ Dict.contains tid
        (mempool (blockchain
                    (listen_step
                       (listen_step second first_addr
                          (new_transaction
                             (mkTransaction (Some tid) (Some (address first))
                                (Some receiver) (Some amt) (Some "regular")) (Some 4))).1
                       first_addr (new_block block)).1))
      = false.
Proof.
  intros Hreach Hsame Hamt Haddr Hrecv Htid Hfresh1 Hfresh2 Hunseen Hm.
  set (tx := mkTransaction (Some tid) (Some (address first)) (Some receiver)
               (Some amt) (Some "regular")) in *.
  destruct (repl_tx_accepted tid receiver amt first Hamt Haddr Hrecv Htid Hfresh1)
    as [Hpass Htx]. fold tx in Hpass, Htx.
  rewrite Htx in Hm. simpl fst in Hm.
  set (ledger1 := mkBlockchain (chain (blockchain first))
                    (mempool (blockchain first) ++ [(tid, tx)])) in *.
  assert (reachable ledger1) as Hreach1.
  { replace ledger1 with (add_transaction tx (blockchain first)).2;
      [by apply reach_add_transaction |].
    rewrite (add_transaction_fields_pass tx _ tid Hpass eq_refl).
    destruct (Dict.get tid (mempool (blockchain first))) eqn:Eget; [| done].
    assert (Dict.contains tid (mempool (blockchain first)) = true)
      by (apply dict_contains_get; eauto). congruence. }
  unfold repl_mine in Hm. simpl blockchain in Hm. simpl address in Hm.
  destruct (mine_block fuel now (address first) ledger1) as [[r0 bc]|] eqn:E; [| done].
  destruct (reachable_inv _ Hreach1) as [Hne Hok].
  destruct (last_is_Some _ Hne) as [tip Htip].
  destruct (mine_block_returns _ _ _ _ _ _ _ Htip Hok E) as (k & -> & Hpow & ->).
  simplify_eq.
  set (block := set_nonce (candidate_block ledger1 tip now (address first))
                  (1 + Z.of_nat k)) in *.
  exists block.
  rewrite (listen_step_fresh second first_addr tx (Some 4) tid eq_refl Htid Hunseen).
  simpl fst.
  assert ((add_transaction tx (blockchain second)).2
          = mkBlockchain (chain (blockchain second))
              (mempool (blockchain second) ++ [(tid, tx)])) as Hadd.
  { rewrite (add_transaction_fields_pass tx _ tid Hpass eq_refl).
    destruct (Dict.get tid (mempool (blockchain second))) eqn:Eget; [| done].
    assert (Dict.contains tid (mempool (blockchain second)) = true)
      by (apply dict_contains_get; eauto). congruence. }
  rewrite Hadd. simpl.
  rewrite (validate_mined_block _ _ _ _ _ _
             (mkBlockchain (chain (blockchain second))
                (mempool (blockchain second) ++ [(tid, tx)])) tip Htip Hok E)
    by (simpl; by rewrite Hsame).
  simpl. split_and!; try done.
  - right. unfold Dict.values. apply list_elem_of_fmap. exists (tid, tx).
    split; [done |]. apply elem_of_app. right. left.
  - by rewrite Hsame.
  - apply dict_contains_minus. unfold Dict.keys. rewrite fmap_app, elem_of_app.
    right. left.
Qed.

End Ledger.


(** ** SHA-256 and the JSON text on known values *)

Example sha256_abc :
  Sha256.hexdigest (Sha256.encode "abc")
  = "ba7816bf8f01cfea414140de5dae2223b00361a396177a9cb410ff61f20015ad".
Proof. vm_compute. reflexivity. Qed.

Example sha256_two_blocks :
  Sha256.hexdigest
    (Sha256.encode "abcdbcdecdefdefgefghfghighijhijkijkljklmklmnlmnomnopnopq")
  = "248d6a61d20638b8e5c026930c3e6039a33ce45964ff2167f6ecedd419db06c1".
Proof. vm_compute. reflexivity. Qed.

Example float_str_values :
  Json.float_str <$> [50%float; 0.5%float; 0x1.999999999999ap-4%float; 1e16%float;
                      0x1.4f8b588e368f1p-17%float; 0x0.0000000000001p-1022%float;
                      0x1.52d02c7e14af6p+76%float; (-0)%float; infinity; nan]
  = ["50.0"; "0.5"; "0.1"; "1e+16"; "1e-05"; "5e-324"; "1e+23"; "-0.0"; "Infinity"; "NaN"].
Proof. vm_compute. reflexivity. Qed.

(** The hashes that [hashlib] and [json] give for the concrete blocks. *)
Example genesis_hash_ok : sha256_hash_dict GENESIS = genesis_hash.
Proof. vm_compute. reflexivity. Qed.

Example block_two_hash :
  sha256_hash_dict block_two
  = "000022a6696edb8aa541f8751db749f6a524d50908a5a34d6aa99f741a242c88".
Proof. vm_compute. reflexivity. Qed.

Example block_three_hash :
  sha256_hash_dict block_three
  = "0000bb1cd974b05b2adc4227dd731ec80b367abdca8d605e16a78a65fab4fa4d".
Proof. vm_compute. reflexivity. Qed.

Example foreign_block_hash :
  sha256_hash_dict foreign_block
  = "00005bf73c289173201db15b8d15a8cf80368213f0f3f63aa36faa9bb3e1560f".
Proof. vm_compute. reflexivity. Qed.

Example block_bob_hash :
  sha256_hash_dict block_bob
  = "00005b8d0499f71114244cdf96549da4df7942072e8f45937cad332a05a1a78b".
Proof. vm_compute. reflexivity. Qed.

(** ** The theorems on concrete ledgers *)

Lemma ledger_t1_reachable : reachable sha256_hash_dict ledger_t1.
Proof. exact (reach_add_transaction sha256_hash_dict tx_t1 init (reach_init _)). Qed.

Lemma ledger_t1_t2_reachable : reachable sha256_hash_dict ledger_t1_t2.
Proof.
  exact (reach_add_transaction sha256_hash_dict tx_t2 ledger_t1 ledger_t1_reachable).
Qed.

Lemma ledger_coinbase_id_reachable : reachable sha256_hash_dict ledger_coinbase_id.
Proof.
  exact (reach_add_transaction sha256_hash_dict tx_coinbase_id init (reach_init _)).
Qed.

Lemma block_partial_extends : extends_tip sha256_hash_dict GENESIS block_partial.
Proof. split; vm_compute; reflexivity. Qed.

Lemma ledger_carol_built : locally_built sha256_hash_dict ["carol"] ledger_carol.
Proof.
  apply (built_mine_block sha256_hash_dict [] 6 "2025-03-02T09:00:00.025019" "carol"
           init block_carol ledger_carol); [constructor |].
  vm_compute. reflexivity.
Qed.

Lemma ledger_carol_dave_built :
  locally_built sha256_hash_dict ["carol"; "dave"] ledger_carol_dave.
Proof.
  apply (built_mine_block sha256_hash_dict ["carol"] 4 "2025-03-02T09:05:00.066981" "dave"
           ledger_carol block_dave ledger_carol_dave); [apply ledger_carol_built |].
  vm_compute. reflexivity.
Qed.

Lemma ledger_t1_mempool_ok : mempool_ok (mempool ledger_t1).
Proof.
  intros k tx Hin. apply list_elem_of_singleton in Hin. by simplify_eq.
Qed.

Lemma ledger_one_built : locally_built sha256_hash_dict ["alice"] ledger_one.
Proof.
  apply (built_mine_block sha256_hash_dict [] 1 "2025-03-01T12:00:00.184296" "alice"
           init block_two ledger_one); [constructor |].
  vm_compute. reflexivity.
Qed.

Lemma ledger_two_built : locally_built sha256_hash_dict ["alice"; "alice"] ledger_two.
Proof.
  apply (built_mine_block sha256_hash_dict ["alice"] 1 "2025-03-01T12:00:07.091565" "alice"
           ledger_one block_three ledger_two); [apply ledger_one_built |].
  vm_compute. reflexivity.
Qed.

(** C2, the failing input under SHA-256: [is_chain_valid([])] is [True] on
    a fresh ledger, and [False] once the own chain is not valid. *)
Example is_chain_valid_empty_sha256 :
  is_chain_valid sha256_hash_dict (Some []) init = true
  ∧ is_chain_valid sha256_hash_dict (Some []) (mkBlockchain [block_two] []) = false.
Proof. split; vm_compute; reflexivity. Qed.

(** C3 on the ledger with [tx_t1] pending and the block of ["bob"]: the
    block is accepted, appended, and [tx_t1] leaves the mempool. *)
Lemma validate_and_add_block_spec_witness :
  last (chain ledger_t1) = Some GENESIS
  ∧ ((validate_and_add_block sha256_hash_dict block_bob ledger_t1).1 = Ok true
     ↔ extends_tip sha256_hash_dict GENESIS block_bob
       ∧ missing_key (transactions block_bob) = None)
  ∧ validate_and_add_block sha256_hash_dict block_bob ledger_t1
    = (Ok true, mkBlockchain [GENESIS; block_bob] []).
Proof.
  assert (last (chain ledger_t1) = Some GENESIS) as Htip by reflexivity.
  pose proof (validate_and_add_block_spec sha256_hash_dict block_bob ledger_t1 GENESIS Htip)
    as (Hiff & _).
  split_and!; [done | done |].
  vm_compute. reflexivity.
Defined.

(** C3 as stated fails: [block_partial] names the hash of the tip and has
    the proof of work, yet the call returns neither [True] nor [False]; it
    raises, and the ledger is not the one it started from: the block is in
    the chain and [tx_t1] has left the mempool, while [tx_t2], which the
    block holds as well, is still pending. *)
Lemma validate_and_add_block_raises :
  reachable sha256_hash_dict ledger_t1_t2
  ∧ extends_tip sha256_hash_dict GENESIS block_partial
  ∧ tx_t2 ∈ transactions block_partial
  ∧ validate_and_add_block sha256_hash_dict block_partial ledger_t1_t2
    = (Raise (KeyError "type"), mkBlockchain [GENESIS; block_partial] [("t2", tx_t2)]).
Proof.
  split_and!; [apply ledger_t1_t2_reachable | apply block_partial_extends | |].
  - right. right. left.
  - vm_compute. reflexivity.
Qed.

(** C4 as stated fails: [nan] is not a finite positive number, and
    [add_transaction] adds the transaction that carries it. *)
Lemma add_transaction_accepts_nan :
  amount tx_nan = Some nan
  ∧ finite_positive nan = false
  ∧ add_transaction tx_nan init
    = (Ok (true, tx_nan), mkBlockchain [GENESIS] [("t9", tx_nan)]).
Proof. split_and!; vm_compute; reflexivity. Qed.

(** C5 on the ledger with [tx_t1] pending: [replace_chain] adopts the chain
    of ["bob"], and [tx_t1], confirmed there, leaves the mempool. *)
Lemma replace_chain_mempool_spec_witness :
  reachable sha256_hash_dict ledger_t1
  ∧ (replace_chain sha256_hash_dict [GENESIS; block_bob] ledger_t1).1 = Ok true
  ∧ chain (replace_chain sha256_hash_dict [GENESIS; block_bob] ledger_t1).2
    = [GENESIS; block_bob]
  ∧ mempool (replace_chain sha256_hash_dict [GENESIS; block_bob] ledger_t1).2
    = mempool_minus (mempool ledger_t1) (regular_ids (chain_txs [GENESIS; block_bob]))
  ∧ mempool (replace_chain sha256_hash_dict [GENESIS; block_bob] ledger_t1).2 = [].
Proof.
  assert ((replace_chain sha256_hash_dict [GENESIS; block_bob] ledger_t1).1 = Ok true) as Htrue
    by (vm_compute; reflexivity).
  pose proof (replace_chain_mempool_spec sha256_hash_dict [GENESIS; block_bob] ledger_t1
                ledger_t1_reachable Htrue) as (Hc & Hm & _ & _ & _).
  split_and!; [apply ledger_t1_reachable | done | done | done |].
  vm_compute. reflexivity.
Defined.

(** C5 as stated fails: a regular transfer was submitted under the id
    ["coinbase-2"]; [replace_chain] adopts the chain of [block_two], whose
    coinbase has this id, and the id is still in the mempool. *)
Lemma coinbase_id_stays_pending :
  reachable sha256_hash_dict ledger_coinbase_id
  ∧ replace_chain sha256_hash_dict [GENESIS; block_two] ledger_coinbase_id
    = (Ok true, mkBlockchain [GENESIS; block_two] [("coinbase-2", tx_coinbase_id)])
  ∧ (∃ cb, cb ∈ chain_txs [GENESIS; block_two]
           ∧ type cb = Some "coinbase" ∧ tx_id cb = Some "coinbase-2").
Proof.
  split_and!; [apply ledger_coinbase_id_reachable | vm_compute; reflexivity |].
  eexists. split; [left | done].
Qed.

(** C6 on the ledger that ["carol"] and then ["dave"] have mined, with the
    nonces 6 and 4: three blocks, and the third begins with the coinbase
    that pays ["dave"] 50.  The next call, by ["carol"], returns the block
    with nonce 5 after five tests, and has not returned after four. *)
Lemma mine_n_times_witness :
  locally_built sha256_hash_dict ["carol"; "dave"] ledger_carol_dave
  ∧ length (chain ledger_carol_dave) = 3%nat
  ∧ (∃ b cb rest, chain ledger_carol_dave !! 2%nat = Some b ∧ transactions b = cb :: rest
                  ∧ type cb = Some "coinbase" ∧ receiver cb = Some "dave"
                  ∧ amount cb = Some 50%float)
  ∧ mine_block sha256_hash_dict 5 "2025-03-02T09:10:00.002154" "carol" ledger_carol_dave
    = Some (Ok block_carol_next,
            mkBlockchain [GENESIS; block_carol; block_dave; block_carol_next] [])
  ∧ mine_block sha256_hash_dict 4 "2025-03-02T09:10:00.002154" "carol" ledger_carol_dave
    = None.
Proof.
  pose proof (mine_n_times sha256_hash_dict ["carol"; "dave"] ledger_carol_dave
                ledger_carol_dave_built) as (Hlen & _ & _ & Hcb & tip & Htip & Hnext).
  assert (tip = block_dave) as -> by (simpl in Htip; congruence).
  destruct (Hnext "2025-03-02T09:10:00.002154" "carol" 5)
    as (n0 & Hn0 & Hpow & _ & Hrun & Hnone & _); [lia | vm_compute; reflexivity |].
  assert (n0 = 5) as ->.
  { assert (n0 = 1 ∨ n0 = 2 ∨ n0 = 3 ∨ n0 = 4 ∨ n0 = 5) as [-> | [-> | [-> | [-> | ->]]]] by lia;
      [vm_compute in Hpow; discriminate.. | reflexivity]. }
  split_and!; [apply ledger_carol_dave_built | done | | |].
  - apply (Hcb 1%nat "dave"). reflexivity.
  - rewrite (Hrun 5%nat) by (simpl; lia). vm_compute. reflexivity.
  - apply (Hnone 4%nat). simpl. lia.
Defined.

(** C7 on the ledger with [tx_t1] pending: another transfer under ["t1"]
    that passes the field checks gets [tx_t1] back. *)
Lemma add_transaction_duplicate_witness :
  fields_pass tx_t1_again
  ∧ tx_id tx_t1_again = Some "t1"
  ∧ Dict.get "t1" (mempool ledger_t1) = Some tx_t1
  ∧ add_transaction tx_t1_again ledger_t1 = (Ok (false, tx_t1), ledger_t1).
Proof.
  assert (fields_pass tx_t1_again) as Hpass.
  { split; [exists 3%float; split; reflexivity |]. split_and!; try reflexivity. by left. }
  split_and!; [done | reflexivity | reflexivity |].
  apply (add_transaction_duplicate tx_t1_again ledger_t1 "t1" tx_t1); [done | reflexivity..].
Defined.

(** C7 as stated fails: ["t1"] is pending, and a submission under ["t1"]
    whose amount is zero gets itself back, not the stored entry. *)
Lemma add_transaction_duplicate_invalid :
  tx_id tx_t1_zero = Some "t1"
  ∧ Dict.get "t1" (mempool ledger_t1) = Some tx_t1
  ∧ tx_eqb tx_t1_zero tx_t1 = false
  ∧ add_transaction tx_t1_zero ledger_t1 = (Ok (false, tx_t1_zero), ledger_t1).
Proof. split_and!; vm_compute; reflexivity. Qed.

(** C8 on a first and a second delivery of [tx_t1]: it becomes pending and
    seen and goes to the other peer with [ttl = 3]; the second delivery
    changes nothing and sends nothing. *)
Lemma listen_new_transaction_witness :
  listen_step sha256_hash_dict node_zero ("127.0.0.1", 5001) (new_transaction tx_t1 (Some 4))
  = (mkNode ledger_t1 5000 "n0" [("127.0.0.1", 5001); ("127.0.0.1", 5002)] {["t1"]},
     [(new_transaction tx_t1 (Some 3), ("127.0.0.1", 5002))])
  ∧ listen_step sha256_hash_dict
      (listen_step sha256_hash_dict node_zero ("127.0.0.1", 5001)
         (new_transaction tx_t1 (Some 4))).1
      ("127.0.0.1", 5002) (new_transaction tx_t1 (Some 3))
    = ((listen_step sha256_hash_dict node_zero ("127.0.0.1", 5001)
          (new_transaction tx_t1 (Some 4))).1, []).
Proof.
  pose proof (listen_new_transaction sha256_hash_dict node_zero ("127.0.0.1", 5001) tx_t1 (Some 4))
    as (_ & Hfresh & Hagain).
  split.
  - destruct (Hfresh "t1") as [-> _]; [reflexivity | done | apply not_elem_of_empty |].
    reflexivity.
  - apply (Hagain [] ("127.0.0.1", 5002) tx_t1 (Some 3)). reflexivity.
Defined.

(** C8 as stated fails: the id [""] is not in the seen set and [ttl] is 4,
    yet the node does not mark the id seen and forwards nothing. *)
Lemma listen_drops_empty_id :
  tx_id tx_no_id = Some ""
  ∧ seen_tx_ids node_zero = ∅
  ∧ peers node_zero = [("127.0.0.1", 5001); ("127.0.0.1", 5002)]
  ∧ listen_step sha256_hash_dict node_zero ("127.0.0.1", 5001)
      (new_transaction tx_no_id (Some 4))
    = (node_zero, []).
Proof. split_and!; reflexivity. Qed.

(** C9 on the ledger that ["alice"] has mined once: her block is second
    and its index is 2. *)
Lemma locally_built_index_witness :
  locally_built sha256_hash_dict ["alice"] ledger_one
  ∧ chain ledger_one !! 1%nat = Some block_two
  ∧ index block_two = 2.
Proof.
  split_and!; [apply ledger_one_built | reflexivity |].
  apply (locally_built_index sha256_hash_dict ["alice"] ledger_one ledger_one_built 1%nat).
  reflexivity.
Defined.

(** C9 as stated fails: a fresh ledger accepts the peer's block of index 7
    as its second block, by [validate_and_add_block] and by
    [replace_chain] alike. *)
Lemma foreign_index_accepted :
  index foreign_block = 7
  ∧ validate_and_add_block sha256_hash_dict foreign_block init
    = (Ok true, mkBlockchain [GENESIS; foreign_block] [])
  ∧ replace_chain sha256_hash_dict [GENESIS; foreign_block] init
    = (Ok true, mkBlockchain [GENESIS; foreign_block] [])
  ∧ chain (validate_and_add_block sha256_hash_dict foreign_block init).2 !! 1%nat
    = Some foreign_block.
Proof. split_and!; vm_compute; reflexivity. Qed.

(** C10 on the ledger with [tx_t1] pending, when the clock reads
    ["2025-03-01T13:00:00.000000"]: the nonce 20416 gives the proof of
    work, the block carries the coinbase and [tx_t1], and the mempool is
    empty afterwards. *)
Lemma mine_block_empties_mempool_witness :
  last (chain ledger_t1) = Some GENESIS
  ∧ mempool_ok (mempool ledger_t1)
  ∧ solvable sha256_hash_dict
      (candidate_block sha256_hash_dict ledger_t1 GENESIS "2025-03-01T13:00:00.000000" "alice")
  ∧ ∃ fuel block self',
      mine_block sha256_hash_dict fuel "2025-03-01T13:00:00.000000" "alice" ledger_t1
      = Some (Ok block, self')
      ∧ transactions block = coinbase_tx 1 "alice" :: [tx_t1]
      ∧ mempool self' = [].
Proof.
  assert (solvable sha256_hash_dict
            (candidate_block sha256_hash_dict ledger_t1 GENESIS
               "2025-03-01T13:00:00.000000" "alice")) as Hsolv.
  { exists (Z.to_nat 20415). vm_compute. reflexivity. }
  destruct (mine_block_empties_mempool sha256_hash_dict ledger_t1 GENESIS
              "2025-03-01T13:00:00.000000" "alice" eq_refl ledger_t1_mempool_ok Hsolv)
    as (fuel & block & self' & Hm & Htxs & _ & Hempty & _).
  split_and!; [reflexivity | apply ledger_t1_mempool_ok | done |].
  exists fuel, block, self'. done.
Defined.

(** ** The further theorems on concrete ledgers and nodes *)

Lemma ledger_two_reachable : reachable sha256_hash_dict ledger_two.
Proof. exact (locally_built_reachable _ _ _ ledger_two_built). Qed.

Lemma mine_on_ledger_t1 :
  mine_block sha256_hash_dict 3 "2025-03-01T16:00:00.004456" "alice" ledger_t1
  = Some (Ok block_with_t1, mkBlockchain [GENESIS; block_with_t1] []).
Proof. vm_compute. reflexivity. Qed.

Lemma mine_on_init :
  mine_block sha256_hash_dict 1 "2025-03-01T12:00:00.184296" "alice" init
  = Some (Ok block_two, ledger_one).
Proof. vm_compute. reflexivity. Qed.

(** X1 on the ledger that ["alice"] has mined twice. *)
Lemma reachable_chain_valid_witness :
  reachable sha256_hash_dict ledger_two
  ∧ is_chain_valid sha256_hash_dict None ledger_two = true.
Proof.
  split; [apply ledger_two_reachable |].
  exact (proj1 (reachable_chain_valid sha256_hash_dict ledger_two ledger_two_reachable)).
Defined.

(** X2 on the ledger with [tx_t1] pending. *)
Lemma reachable_mempool_valid_witness :
  reachable sha256_hash_dict ledger_t1
  ∧ Dict.get "t1" (mempool ledger_t1) = Some tx_t1
  ∧ NoDup (Dict.keys (mempool ledger_t1))
  ∧ tx_id tx_t1 = Some "t1" ∧ type tx_t1 = Some "regular".
Proof.
  destruct (reachable_mempool_valid sha256_hash_dict ledger_t1 ledger_t1_reachable)
    as [Hnd Hall].
  destruct (Hall "t1" tx_t1 eq_refl) as (Hid & Hreg & _).
  split_and!; [apply ledger_t1_reachable | reflexivity | done | done | done].
Defined.

(** X4 on the node whose ledger has [tx_t1] and [tx_t2] pending, and the
    block that holds [tx_t1], the unreadable transfer and [tx_t2]: the
    call raises on ["type"], the block is in the chain, [tx_t1] has left
    the mempool and [tx_t2] has not; the node sends nothing. *)
Lemma validate_and_add_block_unreadable_witness :
  last (chain ledger_t1_t2) = Some GENESIS
  ∧ extends_tip sha256_hash_dict GENESIS block_partial
  ∧ forallb tx_readable (transactions block_partial) = false
  ∧ validate_and_add_block sha256_hash_dict block_partial ledger_t1_t2
    = (Raise (KeyError "type"), mkBlockchain [GENESIS; block_partial] [("t2", tx_t2)])
  ∧ listen_step sha256_hash_dict
      (mkNode ledger_t1_t2 5000 "n0" [("127.0.0.1", 5001)] ∅) ("127.0.0.1", 5001)
      (new_block block_partial)
    = (mkNode (mkBlockchain [GENESIS; block_partial] [("t2", tx_t2)]) 5000 "n0"
         [("127.0.0.1", 5001)] ∅, []).
Proof.
  destruct (validate_and_add_block_unreadable sha256_hash_dict block_partial ledger_t1_t2
              GENESIS eq_refl block_partial_extends eq_refl) as (key & Hkey & Hv & _ & Hl).
  assert (key = "type") as -> by (simpl in Hkey; congruence).
  split_and!; [reflexivity | apply block_partial_extends | reflexivity | |].
  - rewrite Hv. vm_compute. reflexivity.
  - rewrite (Hl (mkNode ledger_t1_t2 5000 "n0" [("127.0.0.1", 5001)] ∅) ("127.0.0.1", 5001)
               eq_refl).
    vm_compute. reflexivity.
Defined.

(** X5 on a fresh ledger and the chain of that block. *)
Lemma replace_chain_unreadable_witness :
  adoptable sha256_hash_dict [GENESIS; block_unreadable] init
  ∧ forallb tx_readable (chain_txs [GENESIS; block_unreadable]) = false
  ∧ ∃ key, replace_chain sha256_hash_dict [GENESIS; block_unreadable] init
           = (Raise (KeyError key), mkBlockchain [GENESIS; block_unreadable] []).
Proof.
  assert (adoptable sha256_hash_dict [GENESIS; block_unreadable] init) as Hyes.
  { split; [| simpl; lia].
    apply (is_chain_valid_nonempty sha256_hash_dict _ init); [done |].
    vm_compute. reflexivity. }
  split_and!; [done | reflexivity |].
  exact (replace_chain_unreadable sha256_hash_dict [GENESIS; block_unreadable] init
           Hyes eq_refl).
Defined.

(** X6: the block that ["alice"] mines on a fresh ledger is accepted on the
    ledger with [tx_t1] pending, which has the same tip. *)
Lemma mined_block_accepted_witness :
  last (chain init) = Some GENESIS
  ∧ mempool_ok (mempool init)
  ∧ mine_block sha256_hash_dict 1 "2025-03-01T12:00:00.184296" "alice" init
    = Some (Ok block_two, ledger_one)
  ∧ last (chain ledger_t1) = Some GENESIS
  ∧ validate_and_add_block sha256_hash_dict block_two ledger_t1
    = (Ok true, mkBlockchain [GENESIS; block_two] [("t1", tx_t1)]).
Proof.
  assert (mempool_ok (mempool init)) as Hok.
  { intros k tx Hin. by apply elem_of_nil in Hin. }
  split_and!; [reflexivity | done | apply mine_on_init | reflexivity |].
  destruct (mined_block_accepted sha256_hash_dict 1 "2025-03-01T12:00:00.184296" "alice"
              init block_two ledger_one ledger_t1 GENESIS GENESIS
              eq_refl Hok mine_on_init eq_refl) as [Hsame _].
  rewrite (Hsame eq_refl). reflexivity.
Defined.

(** X7 on the ledger with [tx_t1] pending: the nonces 1 and 2 fail and the
    nonce 3 passes. *)
Lemma mine_block_least_nonce_witness :
  last (chain ledger_t1) = Some GENESIS
  ∧ mine_block sha256_hash_dict 3 "2025-03-01T16:00:00.004456" "alice" ledger_t1
    = Some (Ok block_with_t1, mkBlockchain [GENESIS; block_with_t1] [])
  ∧ nonce block_with_t1 = 3
  ∧ pow_ok sha256_hash_dict block_with_t1 = true
  ∧ pow_ok sha256_hash_dict
      (set_nonce (candidate_block sha256_hash_dict ledger_t1 GENESIS
                    "2025-03-01T16:00:00.004456" "alice") 2) = false.
Proof.
  destruct (mine_block_least_nonce sha256_hash_dict 3 "2025-03-01T16:00:00.004456" "alice"
              ledger_t1 GENESIS block_with_t1 (mkBlockchain [GENESIS; block_with_t1] [])
              eq_refl mine_on_ledger_t1) as (_ & _ & Hpow & Hfirst).
  split_and!; [reflexivity | apply mine_on_ledger_t1 | reflexivity | done |].
  apply Hfirst. simpl. lia.
Defined.

(** X8 on the ledger with [tx_t1] pending: [tx_t1] is mined, and is
    accepted again afterwards. *)
Lemma confirmed_transaction_replay_witness :
  reachable sha256_hash_dict ledger_t1
  ∧ Dict.get "t1" (mempool ledger_t1) = Some tx_t1
  ∧ mine_block sha256_hash_dict 3 "2025-03-01T16:00:00.004456" "alice" ledger_t1
    = Some (Ok block_with_t1, mkBlockchain [GENESIS; block_with_t1] [])
  ∧ add_transaction tx_t1 (mkBlockchain [GENESIS; block_with_t1] [])
    = (Ok (true, tx_t1), mkBlockchain [GENESIS; block_with_t1] [("t1", tx_t1)]).
Proof.
  destruct (confirmed_transaction_replay sha256_hash_dict 3 "2025-03-01T16:00:00.004456"
              "alice" ledger_t1 (Ok block_with_t1) (mkBlockchain [GENESIS; block_with_t1] [])
              "t1" tx_t1 ledger_t1_reachable eq_refl mine_on_ledger_t1)
    as (block & _ & _ & _ & Hadd).
  split_and!; [apply ledger_t1_reachable | reflexivity | apply mine_on_ledger_t1 | done].
Defined.

(** X9 on the node that holds [tx_t1]: the block of ["bob"] is appended;
    the block of index 3, which does not name the tip, brings a
    [REQ_CHAIN]. *)
Lemma listen_new_block_witness :
  last (chain (blockchain (with_blockchain node_zero ledger_t1))) = Some GENESIS
  ∧ block_typed block_three
  ∧ listen_step sha256_hash_dict (with_blockchain node_zero ledger_t1) ("127.0.0.1", 5001)
      (new_block block_three)
    = (with_blockchain node_zero ledger_t1, [(REQ_CHAIN, ("127.0.0.1", 5001))]).
Proof.
  assert (block_typed block_three) as Hty.
  { repeat constructor; simpl; eauto. }
  split_and!; [reflexivity | done |].
  apply (listen_new_block sha256_hash_dict (with_blockchain node_zero ledger_t1)
           ("127.0.0.1", 5001) block_three GENESIS eq_refl Hty).
  intros [Hprev _]. vm_compute in Hprev. discriminate Hprev.
Defined.

(** X10: the fresh node adopts the chain of the node that has mined
    twice. *)
Lemma sync_adopts_longer_witness :
  reachable sha256_hash_dict (blockchain (with_blockchain node_alice ledger_two))
  ∧ chain (blockchain
             (listen_step sha256_hash_dict node_zero ("127.0.0.1", 5001)
                (FULL_CHAIN (chain (blockchain (with_blockchain node_alice ledger_two))))).1)
    = [GENESIS; block_two; block_three].
Proof.
  split; [apply ledger_two_reachable |].
  destruct (sync_adopts_longer sha256_hash_dict node_zero (with_blockchain node_alice ledger_two)
              ("127.0.0.1", 5000) ("127.0.0.1", 5001) ledger_two_reachable)
    as (_ & _ & Hadopt & _).
  apply Hadopt. simpl. lia.
Defined.

(** X12: [tx_t1] arrives with [ttl = 1], goes on with [ttl = 0], and stops
    there. *)
Lemma gossip_bounded_by_ttl_witness :
  relay_chain sha256_hash_dict
    [(node_zero, ("127.0.0.1", 5001), new_transaction tx_t1 (Some 1));
     (node_alice, ("127.0.0.1", 5000), new_transaction tx_t1 (Some 0))]
  ∧ (length [(node_alice, ("127.0.0.1", 5000%Z), new_transaction tx_t1 (Some 0%Z))]
     ≤ Z.to_nat 1%Z)%nat
  ∧ (listen_step sha256_hash_dict node_alice ("127.0.0.1", 5000)
       (new_transaction tx_t1 (Some 0))).2 = [].
Proof.
  assert (relay_chain sha256_hash_dict
            [(node_zero, ("127.0.0.1", 5001), new_transaction tx_t1 (Some 1));
             (node_alice, ("127.0.0.1", 5000), new_transaction tx_t1 (Some 0))]) as Hchain.
  { split; [| done]. exists ("127.0.0.1", 5002).
    replace (listen_step sha256_hash_dict node_zero ("127.0.0.1", 5001)
               (new_transaction tx_t1 (Some 1))).2
      with [(new_transaction tx_t1 (Some 0), ("127.0.0.1", 5002) : Peer)] by reflexivity.
    left. }
  split; [done |].
  pose proof (gossip_bounded_by_ttl sha256_hash_dict node_zero ("127.0.0.1", 5001) tx_t1
                (Some 1) _ Hchain) as (Hlen & _ & _).
  split; [exact Hlen | reflexivity].
Defined.

(** X14: ["alice"] mines on her fresh node, and the fresh node that hears
    her block holds her chain. *)
Lemma repl_mine_keeps_sync_witness :
  reachable sha256_hash_dict (blockchain node_alice)
  ∧ repl_mine sha256_hash_dict 1 "2025-03-01T12:00:00.184296" node_alice
    = Some (Ok block_two, with_blockchain node_alice ledger_one,
            [(new_block block_two, ("127.0.0.1", 5001));
             (new_block block_two, ("127.0.0.1", 5002))])
  ∧ ∃ block, blockchain (with_blockchain node_alice ledger_one)
             = mkBlockchain (chain (blockchain node_alice) ++ [block]) []
      ∧ listen_step sha256_hash_dict node_zero ("127.0.0.1", 5000) (new_block block)
        = (with_blockchain node_zero ledger_one, []).
Proof.
  assert (repl_mine sha256_hash_dict 1 "2025-03-01T12:00:00.184296" node_alice
          = Some (Ok block_two, with_blockchain node_alice ledger_one,
                  [(new_block block_two, ("127.0.0.1", 5001));
                   (new_block block_two, ("127.0.0.1", 5002))])) as Hm
    by (vm_compute; reflexivity).
  split_and!; [apply reach_init | done |].
  destruct (repl_mine_keeps_sync sha256_hash_dict 1 "2025-03-01T12:00:00.184296" node_alice
              _ _ _ (reach_init _) Hm) as (block & _ & Hbc & _ & Hother).
  exists block. split; [done |].
  rewrite (Hother node_zero ("127.0.0.1", 5000) eq_refl).
  simpl in Hbc. injection Hbc as <-. reflexivity.
Defined.

(** X16 on a ledger without blocks. *)
Lemma empty_chain_edge_witness :
  chain (mkBlockchain [] []) = []
  ∧ validate_and_add_block sha256_hash_dict block_two (mkBlockchain [] [])
    = (Raise IndexError, mkBlockchain [] [])
  ∧ chain (replace_chain sha256_hash_dict [GENESIS] (mkBlockchain [] [])).2 = [GENESIS].
Proof.
  destruct (empty_chain_edge sha256_hash_dict (mkBlockchain [] []) eq_refl)
    as (Hv & _ & _ & _ & Hr).
  split_and!; [reflexivity | apply Hv |]. apply Hr.
  apply (is_chain_valid_nonempty sha256_hash_dict [GENESIS] init); [done |].
  vm_compute. reflexivity.
Defined.

(** X18 on the node that holds [tx_t1] and the block of ["bob"], heard
    from two peers. *)
Lemma new_block_delivered_twice_witness :
  last (chain (blockchain (with_blockchain node_zero ledger_t1))) = Some GENESIS
  ∧ block_typed block_bob
  ∧ extends_tip sha256_hash_dict GENESIS block_bob
  ∧ sha256_hash_dict block_bob ≠ sha256_hash_dict GENESIS
  ∧ listen_step sha256_hash_dict
      (listen_step sha256_hash_dict (with_blockchain node_zero ledger_t1)
         ("127.0.0.1", 5001) (new_block block_bob)).1
      ("127.0.0.1", 5002) (new_block block_bob)
    = ((listen_step sha256_hash_dict (with_blockchain node_zero ledger_t1)
          ("127.0.0.1", 5001) (new_block block_bob)).1,
       [(REQ_CHAIN, ("127.0.0.1", 5002))]).
Proof.
  assert (block_typed block_bob) as Hty.
  { repeat constructor; simpl; eauto. }
  assert (extends_tip sha256_hash_dict GENESIS block_bob) as Hyes.
  { split; vm_compute; reflexivity. }
  assert (sha256_hash_dict block_bob ≠ sha256_hash_dict GENESIS) as Hne.
  { intros Heq. vm_compute in Heq. discriminate Heq. }
  split_and!; [reflexivity | done | done | done |].
  apply (new_block_delivered_twice sha256_hash_dict (with_blockchain node_zero ledger_t1)
           ("127.0.0.1", 5001) ("127.0.0.1", 5002) block_bob GENESIS eq_refl Hty Hyes Hne).
Defined.

(** X19: ["alice"] enters [TX bob 2.5] and then [MINE]; the fresh node that
    hears both datagrams holds her chain, and the transfer is pending at
    neither node. *)
Lemma transaction_confirmed_at_peer_witness :
  repl_mine sha256_hash_dict 1 "2025-03-01T17:00:00.042602"
    (repl_tx "5f2b9a" "bob" 2.5%float node_alice).1
  = Some (Ok block_alice,
          mkNode (mkBlockchain [GENESIS; block_alice] []) 5000 "alice"
            [("127.0.0.1", 5001); ("127.0.0.1", 5002)] {["5f2b9a"]},
          [(new_block block_alice, ("127.0.0.1", 5001));
           (new_block block_alice, ("127.0.0.1", 5002))])
  ∧ ∃ block,
      tx_alice ∈ transactions block
      ∧ chain (blockchain
                 (listen_step sha256_hash_dict
                    (listen_step sha256_hash_dict node_zero ("127.0.0.1", 5000)
                       (new_transaction tx_alice (Some 4))).1
                    ("127.0.0.1", 5000) (new_block block)).1)
        = [GENESIS; block_alice].
Proof.
  assert (repl_mine sha256_hash_dict 1 "2025-03-01T17:00:00.042602"
            (repl_tx "5f2b9a" "bob" 2.5%float node_alice).1
          = Some (Ok block_alice,
                  mkNode (mkBlockchain [GENESIS; block_alice] []) 5000 "alice"
                    [("127.0.0.1", 5001); ("127.0.0.1", 5002)] {["5f2b9a"]},
                  [(new_block block_alice, ("127.0.0.1", 5001));
                   (new_block block_alice, ("127.0.0.1", 5002))])) as Hm
    by (vm_compute; reflexivity).
  split; [done |].
  destruct (transaction_confirmed_at_peer sha256_hash_dict node_alice node_zero
              ("127.0.0.1", 5000) "5f2b9a" "bob" 2.5%float 1 "2025-03-01T17:00:00.042602"
              (Ok block_alice)
              (mkNode (mkBlockchain [GENESIS; block_alice] []) 5000 "alice"
                 [("127.0.0.1", 5001); ("127.0.0.1", 5002)] {["5f2b9a"]})
              [(new_block block_alice, ("127.0.0.1", 5001));
               (new_block block_alice, ("127.0.0.1", 5002))]
              (reach_init _) eq_refl eq_refl)
    as (block & _ & Hin & _ & _ & _ & Hc & _);
    [done | done | done | reflexivity | reflexivity | apply not_elem_of_empty | exact Hm |].
  exists block. split; [exact Hin |]. exact Hc.
Defined.
